(** * Thread_Pool_CPP17: a shallow embedding of [ThreadPool]

    The class [ThreadPool] (threadpool.h, threadpool.cpp) is embedded as a
    record of its data members together with a small state-and-error monad
    in which every member function is written statement by statement.

    Threads interleave at the granularity of the critical sections of
    [taskQueueMutex_]: a member function that blocks on a condition
    variable is cut at the blocking call, and each piece that runs with the
    mutex held is one atomic operation of the model.  What a wait returns
    ([std::cv_status], a clock reading) is an input of the piece that
    follows it. *)

From stdpp Require Import base tactics option list gmap relations.
From Stdlib Require Import ZArith Lia.

Open Scope Z_scope.

(** ** Machine integers *)

Module Int.

(** [size_t]: 64 bits, unsigned. *)
Definition to_size_t (z : Z) : Z := z mod 2 ^ 64.

(** [unsigned int]: 32 bits. *)
Definition to_uint (z : Z) : Z := z mod 2 ^ 32.

(** [int]: 32 bits, two's complement. *)
Definition to_int (z : Z) : Z := (z + 2 ^ 31) mod 2 ^ 32 - 2 ^ 31.

Definition INT32_MAX : Z := 2147483647.

End Int.

(** ** Clock *)

Module Chrono.

(** Ticks of [std::chrono::high_resolution_clock] per second (nanoseconds,
    as in libstdc++ and libc++). *)
Definition ticks_per_second : Z := 1000000000.

(** [std::chrono::duration_cast<std::chrono::seconds>(d).count()]:
    truncation towards zero. *)
Definition seconds (d : Z) : Z := Z.quot d ticks_per_second.

End Chrono.

(** ** Data model *)

(** [enum class PoolMode]. *)
Inductive PoolMode := MODE_FIXED | MODE_CACHED.

Global Instance PoolMode_eq_dec : EqDecision PoolMode.
Proof. solve_decision. Defined.

(** The three condition variables of the pool. *)
Inductive CondVar := queueNotFull_ | queueNotEmpty_ | waitForWorkFinished_.

(** What [wait_for] without a predicate returns. *)
Inductive cv_status := no_timeout | timeout.

(** Modelled from the spec: the class [Thread] of thread.h is not among the
    sources.  A worker handle has a stable numeric id, which [getId]
    returns; the id of a handle under construction is an input of the
    operation that constructs it. *)
Record Thread := mkThread { getId : Z }.

(** A pointer to a [std::packaged_task] allocated by [std::make_shared]. *)
Abbreviation ptr := nat (only parsing).

(** [using Task = std::function<void()>].  The only tasks ever put in the
    queue are the closures that [submitTask] emplaces: each captures the
    shared pointer [task] to a packaged task and, when called, invokes the
    packaged task it points to. *)
Inductive Task := InvokePackaged (task : ptr).

Global Instance Task_eq_dec : EqDecision Task.
Proof. solve_decision. Defined.

(** Text written to [std::cout] and [std::cerr]. *)
Inductive Message :=
| MsgThreadsMapSize (n : Z)
| MsgTimeoutDeleteThread
| MsgCreateNewThread
| MsgTaskQueueFull.

(** Every statement that touches shared data or signals another thread
    leaves an action in the trace of the world. *)
Inductive Action :=
| DecIdleThreadSize
| IncIdleThreadSize
| IncTaskSize
| DecTaskSize
| QueueEmplace (t : Task)
| QueueFront (t : Task)
| QueuePop
| NotifyAll (cv : CondVar)
| MapEmplace (threadId : Z)
| MapErase (threadId : Z)
| ThreadStart (threadId : Z)
| Cout (m : Message)
| Cerr (m : Message).

Global Instance CondVar_eq_dec : EqDecision CondVar.
Proof. solve_decision. Defined.

Global Instance Message_eq_dec : EqDecision Message.
Proof. solve_decision. Defined.

Global Instance Action_eq_dec : EqDecision Action.
Proof. solve_decision. Defined.

(** The data members of [class ThreadPool]. *)
Record ThreadPool := mkThreadPool {
  threadsMap_ : gmap Z Thread;
  initThreadSize_ : Z;       (* size_t *)
  maxThreadSize_ : Z;        (* size_t *)
  maxThreadFreeTime_ : Z;    (* size_t *)
  idleThreadSize_ : Z;       (* std::atomic_int *)
  taskQueue_ : list Task;    (* std::queue<Task>, front first *)
  taskSize_ : Z;             (* std::atomic_uint *)
  taskQueueMaxSize_ : Z;     (* size_t *)
  poolMode_ : PoolMode;
  isPoolRunning_ : bool      (* std::atomic_bool *)
}.

Section Pool.

(** The return type of the submitted callables, with its
    value-initialised object [RtType()]. *)
Context {RtType : Type} (RtType_default : RtType).

(** The shared state between a packaged task and its future. *)
Inductive SharedState :=
| NotReady
| Value (v : RtType)
| BrokenPromise.

(** A [std::packaged_task<RtType()>]: the stored callable and the shared
    state. *)
Record PackagedTask := mkPackagedTask {
  stored : unit -> RtType;
  shared : SharedState
}.

(** A [std::future<RtType>] refers to the shared state of a packaged
    task. *)
Inductive future := Future (p : ptr).

(** The pool, the packaged tasks allocated so far and the trace. *)
Record World := mkWorld {
  pool : ThreadPool;
  heap : list PackagedTask;
  trace : list Action
}.

(** *** The monad: state, with [None] for undefined behaviour *)

Definition M (A : Type) : Type := World -> option (A * World).

Definition ret {A} (a : A) : M A := fun w => Some (a, w).

Definition bind {A B} (m : M A) (k : A -> M B) : M B :=
  fun w => match m w with
           | Some (a, w') => k a w'
           | None => None
           end.

Definition undefined {A} : M A := fun _ => None.

Definition gets {A} (f : ThreadPool -> A) : M A := fun w => Some (f (pool w), w).

Definition modify (f : ThreadPool -> ThreadPool) : M unit :=
  fun w => Some (tt, mkWorld (f (pool w)) (heap w) (trace w)).

Definition emit (a : Action) : M unit :=
  fun w => Some (tt, mkWorld (pool w) (heap w) (trace w ++ [a])).

Definition get_heap : M (list PackagedTask) := fun w => Some (heap w, w).

Definition put_heap (h : list PackagedTask) : M unit :=
  fun w => Some (tt, mkWorld (pool w) h (trace w)).


Notation "x <- m ;; k" := (bind m (fun x => k))
  (at level 100, m at next level, right associativity).
Notation "m ;;; k" := (bind m (fun _ => k))
  (at level 100, right associativity).

Definition when (b : bool) (m : M unit) : M unit := if b then m else ret tt.

(** *** Assignments to single data members *)

Definition set_threadsMap_ (v : gmap Z Thread) (p : ThreadPool) : ThreadPool :=
  mkThreadPool v (initThreadSize_ p) (maxThreadSize_ p) (maxThreadFreeTime_ p)
    (idleThreadSize_ p) (taskQueue_ p) (taskSize_ p) (taskQueueMaxSize_ p)
    (poolMode_ p) (isPoolRunning_ p).

Definition set_initThreadSize_ (v : Z) (p : ThreadPool) : ThreadPool :=
  mkThreadPool (threadsMap_ p) v (maxThreadSize_ p) (maxThreadFreeTime_ p)
    (idleThreadSize_ p) (taskQueue_ p) (taskSize_ p) (taskQueueMaxSize_ p)
    (poolMode_ p) (isPoolRunning_ p).

Definition set_maxThreadSize_ (v : Z) (p : ThreadPool) : ThreadPool :=
  mkThreadPool (threadsMap_ p) (initThreadSize_ p) v (maxThreadFreeTime_ p)
    (idleThreadSize_ p) (taskQueue_ p) (taskSize_ p) (taskQueueMaxSize_ p)
    (poolMode_ p) (isPoolRunning_ p).

Definition set_maxThreadFreeTime_ (v : Z) (p : ThreadPool) : ThreadPool :=
  mkThreadPool (threadsMap_ p) (initThreadSize_ p) (maxThreadSize_ p) v
    (idleThreadSize_ p) (taskQueue_ p) (taskSize_ p) (taskQueueMaxSize_ p)
    (poolMode_ p) (isPoolRunning_ p).

Definition set_idleThreadSize_ (v : Z) (p : ThreadPool) : ThreadPool :=
  mkThreadPool (threadsMap_ p) (initThreadSize_ p) (maxThreadSize_ p)
    (maxThreadFreeTime_ p) v (taskQueue_ p) (taskSize_ p) (taskQueueMaxSize_ p)
    (poolMode_ p) (isPoolRunning_ p).

Definition set_taskQueue_ (v : list Task) (p : ThreadPool) : ThreadPool :=
  mkThreadPool (threadsMap_ p) (initThreadSize_ p) (maxThreadSize_ p)
    (maxThreadFreeTime_ p) (idleThreadSize_ p) v (taskSize_ p)
    (taskQueueMaxSize_ p) (poolMode_ p) (isPoolRunning_ p).

Definition set_taskSize_ (v : Z) (p : ThreadPool) : ThreadPool :=
  mkThreadPool (threadsMap_ p) (initThreadSize_ p) (maxThreadSize_ p)
    (maxThreadFreeTime_ p) (idleThreadSize_ p) (taskQueue_ p) v
    (taskQueueMaxSize_ p) (poolMode_ p) (isPoolRunning_ p).

Definition set_taskQueueMaxSize_ (v : Z) (p : ThreadPool) : ThreadPool :=
  mkThreadPool (threadsMap_ p) (initThreadSize_ p) (maxThreadSize_ p)
    (maxThreadFreeTime_ p) (idleThreadSize_ p) (taskQueue_ p) (taskSize_ p) v
    (poolMode_ p) (isPoolRunning_ p).

Definition set_poolMode_ (v : PoolMode) (p : ThreadPool) : ThreadPool :=
  mkThreadPool (threadsMap_ p) (initThreadSize_ p) (maxThreadSize_ p)
    (maxThreadFreeTime_ p) (idleThreadSize_ p) (taskQueue_ p) (taskSize_ p)
    (taskQueueMaxSize_ p) v (isPoolRunning_ p).

Definition set_isPoolRunning_ (v : bool) (p : ThreadPool) : ThreadPool :=
  mkThreadPool (threadsMap_ p) (initThreadSize_ p) (maxThreadSize_ p)
    (maxThreadFreeTime_ p) (idleThreadSize_ p) (taskQueue_ p) (taskSize_ p)
    (taskQueueMaxSize_ p) (poolMode_ p) v.

(** *** Statements on the shared data *)

(** [--idleThreadSize_] and [++idleThreadSize_] on a [std::atomic_int]. *)
Definition dec_idleThreadSize_ : M unit :=
  modify (fun p => set_idleThreadSize_ (Int.to_int (idleThreadSize_ p - 1)) p);;;
  emit DecIdleThreadSize.

Definition inc_idleThreadSize_ : M unit :=
  modify (fun p => set_idleThreadSize_ (Int.to_int (idleThreadSize_ p + 1)) p);;;
  emit IncIdleThreadSize.

(** [--taskSize_] and [++taskSize_] on a [std::atomic_uint]. *)
Definition dec_taskSize_ : M unit :=
  modify (fun p => set_taskSize_ (Int.to_uint (taskSize_ p - 1)) p);;;
  emit DecTaskSize.

Definition inc_taskSize_ : M unit :=
  modify (fun p => set_taskSize_ (Int.to_uint (taskSize_ p + 1)) p);;;
  emit IncTaskSize.

(** [taskQueue_.size()]. *)
Definition taskQueue_size : M Z := gets (fun p => Z.of_nat (length (taskQueue_ p))).

(** [taskQueue_.emplace(t)]: a new last element. *)
Definition taskQueue_emplace (t : Task) : M unit :=
  modify (fun p => set_taskQueue_ (taskQueue_ p ++ [t]) p);;;
  emit (QueueEmplace t).

(** [taskQueue_.front()]; undefined on an empty queue. *)
Definition taskQueue_front : M Task :=
  q <- gets taskQueue_;;
  match q with
  | t :: _ => emit (QueueFront t);;; ret t
  | [] => undefined
  end.

(** [taskQueue_.pop()]; undefined on an empty queue. *)
Definition taskQueue_pop : M unit :=
  q <- gets taskQueue_;;
  match q with
  | _ :: q' => modify (set_taskQueue_ q');;; emit QueuePop
  | [] => undefined
  end.

(** [taskQueue_.empty()]. *)
Definition taskQueue_empty : M bool :=
  gets (fun p => match taskQueue_ p with [] => true | _ => false end).

Definition notify_all (cv : CondVar) : M unit := emit (NotifyAll cv).

(** [threadsMap_.size()]. *)
Definition threadsMap_size : M Z := gets (fun p => Z.of_nat (size (threadsMap_ p))).

(** [threadsMap_.emplace(id, std::move(ptr))]: nothing is inserted when
    the key is already there. *)
Definition threadsMap_emplace (id : Z) (t : Thread) : M unit :=
  modify (fun p => match threadsMap_ p !! id with
                   | Some _ => p
                   | None => set_threadsMap_ (<[id := t]> (threadsMap_ p)) p
                   end);;;
  emit (MapEmplace id).

(** [threadsMap_.erase(id)]. *)
Definition threadsMap_erase (id : Z) : M unit :=
  modify (fun p => set_threadsMap_ (delete id (threadsMap_ p)) p);;;
  emit (MapErase id).

(** [threadsMap_[id]->start()]: for a key that is not in the map,
    [operator[]] inserts a null pointer, and calling through it is
    undefined. *)
Definition threadsMap_start (id : Z) : M unit :=
  m <- gets threadsMap_;;
  match m !! id with
  | Some t => emit (ThreadStart (getId t))
  | None => undefined
  end.

Definition cout (m : Message) : M unit := emit (Cout m).
Definition cerr (m : Message) : M unit := emit (Cerr m).

(** *** Packaged tasks and futures *)

(** [std::make_shared<std::packaged_task<RtType()>>(f)]. *)
Definition make_shared_packaged_task (f : unit -> RtType) : M ptr :=
  h <- get_heap;;
  put_heap (h ++ [mkPackagedTask f NotReady]);;;
  ret (length h).

(** [task->get_future()]. *)
Definition get_future (task : ptr) : M future := ret (Future task).

(** Calling the packaged task that [task] points to: the stored callable
    runs and its result is made ready in the shared state.  A second call
    throws [std::future_error]; inside a worker that exception leaves the
    thread function, which ends the program. *)
Definition packaged_task_call (task : ptr) : M unit :=
  h <- get_heap;;
  match h !! task with
  | Some pt =>
      match shared pt with
      | NotReady => put_heap (<[task := mkPackagedTask (stored pt) (Value (stored pt tt))]> h)
      | _ => undefined
      end
  | None => undefined
  end.

(** The last [std::shared_ptr] to a packaged task goes out of scope: the
    packaged task is destroyed, and a shared state that is not ready is
    abandoned with the error [broken_promise]. *)
Definition packaged_task_destroy (task : ptr) : M unit :=
  h <- get_heap;;
  match h !! task with
  | Some pt =>
      match shared pt with
      | NotReady => put_heap (<[task := mkPackagedTask (stored pt) BrokenPromise]> h)
      | _ => ret tt
      end
  | None => undefined
  end.

(** Calling a [Task]. *)
Definition Task_call (t : Task) : M unit :=
  match t with InvokePackaged task => packaged_task_call task end.

(** What [result.get()] finds in the shared state of a future, in a given
    world: [Value v] returns [v], [BrokenPromise] throws
    [std::future_error], [NotReady] blocks. *)
Definition future_state (result : future) (w : World) : option SharedState :=
  match result with Future p => shared <$> heap w !! p end.

(** *** Construction and configuration (threadpool.cpp) *)

Definition TASK_MAX_SIZE : Z := Int.INT32_MAX.
Definition THREAD_MAX_SIZE : Z := 1024.

(** [ThreadPool::ThreadPool()]. *)
Definition ThreadPool_ctor : ThreadPool :=
  {| threadsMap_ := ∅;
     initThreadSize_ := 0;
     taskSize_ := 0;
     idleThreadSize_ := 0;
     maxThreadFreeTime_ := 60;
     maxThreadSize_ := Int.to_size_t THREAD_MAX_SIZE;
     taskQueueMaxSize_ := Int.to_size_t TASK_MAX_SIZE;
     taskQueue_ := [];
     poolMode_ := MODE_FIXED;
     isPoolRunning_ := false |}.

(** A program that has constructed a pool and nothing else. *)
Definition World_init : World := mkWorld ThreadPool_ctor [] [].

(** [ThreadPool::isRunningState]. *)
Definition isRunningState : M bool := gets isPoolRunning_.

(** [ThreadPool::setMaxThreadSize(int maxSize)]. *)
Definition setMaxThreadSize (maxSize : Z) : M unit :=
  running <- isRunningState;;
  if running then ret tt
  else modify (set_maxThreadSize_ (Int.to_size_t maxSize)).

(** [ThreadPool::setMaxThreadFreeTime_(size_t time)]. *)
Definition setMaxThreadFreeTime_ (time : Z) : M unit :=
  running <- isRunningState;;
  if running then ret tt
  else
    mode <- gets poolMode_;;
    if decide (mode = MODE_CACHED) then modify (set_maxThreadFreeTime_ time)
    else ret tt.

(** [ThreadPool::setTaskQueueMaxSize(int maxSize_)]. *)
Definition setTaskQueueMaxSize (maxSize_ : Z) : M unit :=
  running <- isRunningState;;
  if running then ret tt
  else
    mode <- gets poolMode_;;
    if decide (mode = MODE_CACHED) then modify (set_taskQueueMaxSize_ (Int.to_size_t maxSize_))
    else ret tt.

(** [ThreadPool::setMode(PoolMode mode)]. *)
Definition setMode (mode : PoolMode) : M unit :=
  running <- isRunningState;;
  if running then ret tt
  else modify (set_poolMode_ mode).

(** [ThreadPool::start(int initThreadSize)].  [ids] are the ids of the
    [Thread] objects that the first loop constructs, in order.  With a
    negative argument [initThreadSize_] is huge and the [int] loop
    counter overflows: undefined. *)
Fixpoint start_create (ids : list Z) : M unit :=
  match ids with
  | [] => ret tt
  | id :: ids' => threadsMap_emplace id (mkThread id);;; start_create ids'
  end.

Fixpoint start_launch (n : nat) (i : Z) : M unit :=
  match n with
  | O => ret tt
  | S n' => threadsMap_start i;;; inc_idleThreadSize_;;; start_launch n' (i + 1)
  end.

Definition start (initThreadSize : Z) (ids : list Z) : M unit :=
  modify (set_isPoolRunning_ true);;;
  modify (set_initThreadSize_ (Int.to_size_t initThreadSize));;;
  if decide (0 <= initThreadSize /\ Z.of_nat (length ids) = initThreadSize) then
    start_create ids;;;
    start_launch (length ids) 0
  else undefined.

(** *** [ThreadPool::submitTask] (threadpool.h) *)

(** Where a call of [submitTask] stands after a critical section. *)
Inductive SubmitPc :=
| SubmitBlocked                  (* inside queueNotFull_.wait_for *)
| SubmitReturn (result : future).

(** Before the lock is taken: the callable and its arguments, bound into
    [bound], are packaged and the future [result] is obtained. *)
Definition submitTask_package (bound : unit -> RtType) : M (ptr * future) :=
  task <- make_shared_packaged_task bound;;
  result <- get_future task;;
  ret (task, result).

(** The growth check and what follows the [if] whose condition is
    [wait_for] with a predicate.  [taskSize_ > idleThreadSize_] compares
    an [unsigned] with an [int]: the [int] is converted to [unsigned]. *)
Definition submitTask_enqueue (task : ptr) (result : future) (threadId : Z) : M SubmitPc :=
  taskQueue_emplace (InvokePackaged task);;;
  inc_taskSize_;;;
  notify_all queueNotEmpty_;;;
  mode <- gets poolMode_;;
  tasks <- gets taskSize_;;
  idle <- gets idleThreadSize_;;
  threads <- threadsMap_size;;
  maxThreads <- gets maxThreadSize_;;
  when (bool_decide (mode = MODE_CACHED)
        && (Int.to_uint idle <? tasks)
        && (threads <? maxThreads))
    (cout MsgCreateNewThread;;;
     threadsMap_emplace threadId (mkThread threadId);;;
     threadsMap_start threadId;;;
     inc_idleThreadSize_);;;
  ret (SubmitReturn result).

(** The body of the [if]: the wait gave up.  A second packaged task is
    made and its future returned; on return the shared pointers to both
    packaged tasks go out of scope. *)
Definition submitTask_fail (task : ptr) : M SubmitPc :=
  cerr MsgTaskQueueFull;;;
  task' <- make_shared_packaged_task (fun _ => RtType_default);;
  result' <- get_future task';;
  packaged_task_destroy task';;;
  packaged_task_destroy task;;;
  ret (SubmitReturn result').

(** One critical section of [submitTask].
    [queueNotFull_.wait_for(lock, 1s, pred)] evaluates [pred] with the
    mutex held; it returns [true] as soon as [pred] holds, returns
    [pred()] once the second has passed ([expired]), and otherwise
    releases the mutex and blocks.  [threadId] is the id of the [Thread]
    that the growth branch constructs. *)
Definition submitTask_locked (task : ptr) (result : future) (expired : bool)
    (threadId : Z) : M SubmitPc :=
  n <- taskQueue_size;;
  maxTasks <- gets taskQueueMaxSize_;;
  if n <? maxTasks then submitTask_enqueue task result threadId
  else if expired then submitTask_fail task
  else ret SubmitBlocked.

(** *** [ThreadPool::threadFunc] (threadpool.cpp) *)

(** The two [return] statements of the thread function. *)
Inductive ExitPath :=
| ExitPoolStopped      (* the pool is not running *)
| ExitIdleTimeout.     (* cached mode, idle for too long *)

(** Where a worker stands after a critical section of the thread
    function. *)
Inductive WorkerPc :=
| WorkerWaitFor                 (* inside queueNotEmpty_.wait_for(lock, 1s) *)
| WorkerWait                    (* inside queueNotEmpty_.wait(lock) *)
| WorkerExecute (task : Task)   (* past the block, mutex released *)
| WorkerReturn (path : ExitPath).

(** After the [while] loop, still inside the block that holds the lock. *)
Definition threadFunc_take : M Task :=
  dec_idleThreadSize_;;;
  task <- taskQueue_front;;
  taskQueue_pop;;;
  dec_taskSize_;;;
  notify_all queueNotFull_;;;
  empty <- taskQueue_empty;;
  when (negb empty) (notify_all queueNotEmpty_);;;
  ret task.

(** The test of [while (taskQueue_.size() == 0)] with the mutex held, and
    what follows it up to the next point where the mutex is released. *)
Definition threadFunc_while (threadId : Z) : M WorkerPc :=
  n <- taskQueue_size;;
  if n =? 0 then
    running <- gets isPoolRunning_;;
    if negb running then
      threadsMap_erase threadId;;;
      notify_all waitForWorkFinished_;;;
      ret (WorkerReturn ExitPoolStopped)
    else
      mode <- gets poolMode_;;
      match mode with
      | MODE_CACHED => ret WorkerWaitFor
      | MODE_FIXED => ret WorkerWait
      end
  else
    task <- threadFunc_take;;
    ret (WorkerExecute task).

(** The top of [for (;;)]: the worker takes the lock and enters the
    [while] loop. *)
Definition threadFunc_lock (threadId : Z) : M WorkerPc := threadFunc_while threadId.

(** [queueNotEmpty_.wait_for] returns [status] with the mutex held again;
    [now] is what the clock reads in the branch for a timeout.
    [dur.count() >= maxThreadFreeTime_] compares a signed 64-bit count with
    a [size_t]: the count is converted to [size_t]. *)
Definition threadFunc_wait_for_returns (threadId threadLastWorkTime : Z)
    (status : cv_status) (now : Z) : M WorkerPc :=
  match status with
  | timeout =>
      let dur := Chrono.seconds (now - threadLastWorkTime) in
      maxFree <- gets maxThreadFreeTime_;;
      threads <- threadsMap_size;;
      init <- gets initThreadSize_;;
      if (maxFree <=? Int.to_size_t dur) && (init <? threads) then
        dec_idleThreadSize_;;;
        cout (MsgThreadsMapSize threads);;;
        cout MsgTimeoutDeleteThread;;;
        threadsMap_erase threadId;;;
        dec_idleThreadSize_;;;
        ret (WorkerReturn ExitIdleTimeout)
      else threadFunc_while threadId
  | no_timeout => threadFunc_while threadId
  end.

(** [queueNotEmpty_.wait] returns with the mutex held again. *)
Definition threadFunc_wait_returns (threadId : Z) : M WorkerPc := threadFunc_while threadId.

(** Outside the lock: [task()].  A [Task] taken from the queue is never
    empty, so the test [task != nullptr] succeeds. *)
Definition threadFunc_execute (task : Task) : M unit := Task_call task.

(** [++idleThreadSize_]; the new [threadLastWorkTime] is local to the
    worker. *)
Definition threadFunc_done : M unit := inc_idleThreadSize_.

(** A worker that has taken a task goes once through the rest of the body
    of [for (;;)]; a worker that waits or has returned does nothing. *)
Definition threadFunc_proceed (pc : WorkerPc) : M unit :=
  match pc with
  | WorkerExecute task => threadFunc_execute task;;; threadFunc_done
  | _ => ret tt
  end.

(** *** [ThreadPool::~ThreadPool] *)

Inductive DtorPc :=
| DtorWaiting       (* inside waitForWorkFinished_.wait *)
| DtorReturn.

(** [isPoolRunning_ = false], before the lock is taken. *)
Definition dtor_stop : M unit := modify (set_isPoolRunning_ false).

(** The test of [waitForWorkFinished_.wait(lock, pred)]. *)
Definition dtor_wait_test : M DtorPc :=
  threads <- threadsMap_size;;
  if threads =? 0 then ret DtorReturn else ret DtorWaiting.

(** The first critical section of the destructor. *)
Definition dtor_lock : M DtorPc :=
  notify_all queueNotEmpty_;;;
  dtor_wait_test.

(** *** Interleavings *)

(** The atomic operations that the threads of a program perform on the
    pool.  An operation carries what is local to the thread that performs
    it. *)
Inductive Op :=
| OpSetMode (mode : PoolMode)
| OpSetMaxThreadSize (maxSize : Z)
| OpSetMaxThreadFreeTime (time : Z)
| OpSetTaskQueueMaxSize (maxSize_ : Z)
| OpStart (initThreadSize : Z) (ids : list Z)
| OpSubmitPackage (bound : unit -> RtType)
| OpSubmitLocked (task : ptr) (result : future) (expired : bool) (threadId : Z)
| OpWorkerLock (threadId : Z)
| OpWorkerWaitForReturns (threadId threadLastWorkTime : Z) (status : cv_status) (now : Z)
| OpWorkerWaitReturns (threadId : Z)
| OpWorkerExecute (task : Task)
| OpWorkerDone
| OpDtorStop
| OpDtorLock
| OpDtorWaitTest.

Definition run {A} (m : M A) (w : World) : option World := snd <$> m w.

Definition exec (op : Op) : World -> option World :=
  match op with
  | OpSetMode mode => run (setMode mode)
  | OpSetMaxThreadSize n => run (setMaxThreadSize n)
  | OpSetMaxThreadFreeTime t => run (setMaxThreadFreeTime_ t)
  | OpSetTaskQueueMaxSize n => run (setTaskQueueMaxSize n)
  | OpStart n ids => run (start n ids)
  | OpSubmitPackage bound => run (submitTask_package bound)
  | OpSubmitLocked task result expired threadId =>
      run (submitTask_locked task result expired threadId)
  | OpWorkerLock threadId => run (threadFunc_lock threadId)
  | OpWorkerWaitForReturns threadId last status now =>
      run (threadFunc_wait_for_returns threadId last status now)
  | OpWorkerWaitReturns threadId => run (threadFunc_wait_returns threadId)
  | OpWorkerExecute task => run (threadFunc_execute task)
  | OpWorkerDone => run threadFunc_done
  | OpDtorStop => run dtor_stop
  | OpDtorLock => run dtor_lock
  | OpDtorWaitTest => run dtor_wait_test
  end.

(** One step of the program: some thread performs one operation. *)
Definition step (w w' : World) : Prop := exists op, exec op w = Some w'.

End Pool.

Notation "x <- m ;; k" := (bind m (fun x => k))
  (at level 100, m at next level, right associativity).
Notation "m ;;; k" := (bind m (fun _ => k))
  (at level 100, right associativity).

(** ** Histories and invariants *)

Section Specification.

Context {RtType : Type} (RtType_default : RtType).

(** The tasks put in the queue and the tasks read at its front, in the
    order in which a trace records them. *)
Definition emplaced (acts : list Action) : list Task :=
  omap (fun a => match a with QueueEmplace t => Some t | _ => None end) acts.

Definition fronted (acts : list Action) : list Task :=
  omap (fun a => match a with QueueFront t => Some t | _ => None end) acts.

(** The ids of the threads started. *)
Definition started (acts : list Action) : list Z :=
  omap (fun a => match a with ThreadStart id => Some id | _ => None end) acts.

(** First in, first out: what has been put in the queue is what has been
    taken from its front followed by what is still queued. *)
Definition fifo_history (w : @World RtType) : Prop :=
  emplaced (trace w) = fronted (trace w) ++ taskQueue_ (pool w).

(** [taskQueue_.size() <= taskQueueMaxSize_]. *)
Definition queue_bounded (w : @World RtType) : Prop :=
  Z.of_nat (length (taskQueue_ (pool w))) <= taskQueueMaxSize_ (pool w).

(** A call of [setTaskQueueMaxSize] that takes effect and sets the bound
    below the number of tasks that are queued already. *)
Definition lowers_bound_below_queue (op : @Op RtType) (w : @World RtType) : Prop :=
  match op with
  | OpSetTaskQueueMaxSize maxSize_ =>
      isPoolRunning_ (pool w) = false /\
      poolMode_ (pool w) = MODE_CACHED /\
      Int.to_size_t maxSize_ < Z.of_nat (length (taskQueue_ (pool w)))
  | _ => False
  end.

(** A step of a program that never configures the bound of the queue below
    what the queue holds. *)
Definition step_configured (w w' : @World RtType) : Prop :=
  exists op, exec RtType_default op w = Some w' /\ ~ lowers_bound_below_queue op w.

(** The operation is a call of [setTaskQueueMaxSize] that takes effect. *)
Definition bound_assigned (op : @Op RtType) (w w' : @World RtType) : Prop :=
  match op with
  | OpSetTaskQueueMaxSize maxSize_ =>
      isPoolRunning_ (pool w) = false /\
      poolMode_ (pool w) = MODE_CACHED /\
      pool w' = set_taskQueueMaxSize_ (Int.to_size_t maxSize_) (pool w)
  | _ => False
  end.

(** The operations that go through the shared pointer [c]: the call of the
    closure that captured it, and the critical sections of the call of
    [submitTask] that allocated it. *)
Definition uses (op : @Op RtType) (c : ptr) : Prop :=
  match op with
  | OpWorkerExecute (InvokePackaged c') => c' = c
  | OpSubmitLocked c' _ _ _ => c' = c
  | _ => False
  end.

(** A step of a thread that does not hold the pointer [c]. *)
Definition step_without (c : ptr) (w w' : @World RtType) : Prop :=
  exists op, exec RtType_default op w = Some w' /\ ~ uses op c.

(** The condition of the growth branch of [submitTask], read on the
    integers. *)
Definition growth_condition (p : ThreadPool) : Prop :=
  poolMode_ p = MODE_CACHED /\
  idleThreadSize_ p < taskSize_ p /\
  Z.of_nat (size (threadsMap_ p)) < maxThreadSize_ p.

(** The condition under which a worker whose timed wait ran out retires,
    for an idle time of [dur] seconds. *)
Definition retire_condition (dur : Z) (p : ThreadPool) : Prop :=
  maxThreadFreeTime_ p <= dur /\
  initThreadSize_ p < Z.of_nat (size (threadsMap_ p)).

(** An operation leaves the queue as it is, appends one task after finding
    the queue below its bound, or removes the task at the front; its
    actions say which. *)
Inductive QueueEffect (p p' : ThreadPool) (acts : list Action) : Prop :=
| QueueKept :
    taskQueue_ p' = taskQueue_ p ->
    emplaced acts = [] -> fronted acts = [] ->
    QueueEffect p p' acts
| QueuePushed t :
    taskQueue_ p' = taskQueue_ p ++ [t] ->
    Z.of_nat (length (taskQueue_ p)) < taskQueueMaxSize_ p ->
    emplaced acts = [t] -> fronted acts = [] ->
    QueueEffect p p' acts
| QueuePopped t :
    taskQueue_ p = t :: taskQueue_ p' ->
    emplaced acts = [] -> fronted acts = [t] ->
    QueueEffect p p' acts.

(** What [start] leaves alone. *)
Definition start_frame_of (w w' : @World RtType) : Prop :=
  exists acts, trace w' = trace w ++ acts /\
    emplaced acts = [] /\ fronted acts = [] /\
    heap w' = heap w /\
    taskQueue_ (pool w') = taskQueue_ (pool w) /\
    taskQueueMaxSize_ (pool w') = taskQueueMaxSize_ (pool w).

(** The world after the first statements of [submitTask]. *)
Definition World_packaged (bound : unit -> RtType) (w : @World RtType) : World :=
  mkWorld (pool w) (heap w ++ [mkPackagedTask bound NotReady]) (trace w).

(** The pool as the growth branch of [submitTask] finds it: the task is
    queued and counted. *)
Definition pool_enqueued (task : ptr) (p : ThreadPool) : ThreadPool :=
  set_taskSize_ (Int.to_uint (taskSize_ p + 1))
    (set_taskQueue_ (taskQueue_ p ++ [InvokePackaged task]) p).

(** The three actions of every accepted submission, and the four more of
    one that grows the pool. *)
Definition enqueue_actions (task : ptr) : list Action :=
  [QueueEmplace (InvokePackaged task); IncTaskSize; NotifyAll queueNotEmpty_].

Definition growth_actions (threadId : Z) : list Action :=
  [Cout MsgCreateNewThread; MapEmplace threadId; ThreadStart threadId; IncIdleThreadSize].

(** The world in which a worker leaves the block that holds the lock,
    having found the task [t] at the front of the queue and [q] behind
    it. *)
Definition World_taken (t : Task) (q : list Task) (w : @World RtType) : World :=
  mkWorld
    (set_taskSize_ (Int.to_uint (taskSize_ (pool w) - 1))
      (set_taskQueue_ q
        (set_idleThreadSize_ (Int.to_int (idleThreadSize_ (pool w) - 1)) (pool w))))
    (heap w)
    (trace w ++
      [DecIdleThreadSize; QueueFront t; QueuePop; DecTaskSize; NotifyAll queueNotFull_] ++
      match q with [] => [] | _ :: _ => [NotifyAll queueNotEmpty_] end).

(** The world in which a worker returns from the retire branch. *)
Definition World_retired (threadId : Z) (w : @World RtType) : World :=
  mkWorld
    (set_idleThreadSize_ (Int.to_int (idleThreadSize_ (pool w) - 2))
      (set_threadsMap_ (delete threadId (threadsMap_ (pool w))) (pool w)))
    (heap w)
    (trace w ++
      [DecIdleThreadSize;
       Cout (MsgThreadsMapSize (Z.of_nat (size (threadsMap_ (pool w)))));
       Cout MsgTimeoutDeleteThread;
       MapErase threadId;
       DecIdleThreadSize]).

End Specification.

(** ** Scenarios *)

(** The tasks of the README: [int add1(int, int)] and
    [int add2(int, int, int)]. *)
Definition add1 (a b : Z) : Z := Int.to_int (a + b).
Definition add2 (a b c : Z) : Z := Int.to_int (Int.to_int (a + b) + c).

(** The world that a scenario leaves, started from a program that has
    only constructed the pool. *)
Definition world_after {A} (scenario : M (RtType := Z) A) : World :=
  default World_init (run scenario World_init).

(** A pool started with two workers in the default mode. *)
Definition scenario_fixed_pool : M (RtType := Z) unit :=
  start 2 [0; 1].

(** The same, with one task submitted. *)
Definition scenario_one_task : M (RtType := Z) SubmitPc :=
  scenario_fixed_pool;;;
  s <- submitTask_package (fun _ => add1 1 2);;
  submitTask_locked 0 (fst s) (snd s) false 2.

(** The README's two submissions to a pool of two workers; each worker
    takes a task, and the second worker finishes first. *)
Definition scenario_readme : M (RtType := Z) (future * future * WorkerPc * WorkerPc) :=
  scenario_fixed_pool;;;
  s1 <- submitTask_package (fun _ => add1 1 2);;
  submitTask_locked 0 (fst s1) (snd s1) false 2;;;
  s2 <- submitTask_package (fun _ => add2 1 2 3);;
  submitTask_locked 0 (fst s2) (snd s2) false 3;;;
  pc1 <- threadFunc_lock 0;;
  pc2 <- threadFunc_lock 1;;
  threadFunc_proceed pc2;;;
  threadFunc_proceed pc1;;;
  ret (snd s1, snd s2, pc1, pc2).

(** A cached pool that is started empty. *)
Definition scenario_cached_pool : M (RtType := Z) unit :=
  setMode MODE_CACHED;;;
  start 0 [].

(** A cached pool with a queue of capacity zero; a submission blocks and
    then gives up. *)
Definition scenario_submit_timeout : M (RtType := Z) (SubmitPc * SubmitPc) :=
  setMode MODE_CACHED;;;
  setTaskQueueMaxSize 0;;;
  start 1 [0];;;
  s <- submitTask_package (fun _ => add1 1 2);;
  pc1 <- submitTask_locked 0 (fst s) (snd s) false 1;;
  pc2 <- submitTask_locked 0 (fst s) (snd s) true 1;;
  ret (pc1, pc2).

(** A pool whose queue is full while the growth condition holds: a task is
    submitted with [maxThreadSize_] at zero, which is raised afterwards. *)
Definition scenario_full_queue : M (RtType := Z) SubmitPc :=
  setMode MODE_CACHED;;;
  setTaskQueueMaxSize 1;;;
  setMaxThreadSize 0;;;
  s <- submitTask_package (fun _ => add1 1 2);;
  pc <- submitTask_locked 0 (fst s) (snd s) false 0;;
  setMaxThreadSize 8;;;
  ret pc.

(** A call of [submitTask] that blocks and then gives up. *)
Definition scenario_blocked_call : M (RtType := Z) (SubmitPc * SubmitPc) :=
  s <- submitTask_package (fun _ => add2 1 2 3);;
  pc1 <- submitTask_locked 0 (fst s) (snd s) false 0;;
  pc2 <- submitTask_locked 0 (fst s) (snd s) true 0;;
  ret (pc1, pc2).

(** A cached pool started empty, with an idle timeout of one second, grows
    one worker, which runs a task and goes to wait.  The results are where
    the submission and the worker stand after each critical section. *)
Definition scenario_idle_worker : M (RtType := Z) (SubmitPc * WorkerPc * WorkerPc) :=
  setMode MODE_CACHED;;;
  setMaxThreadFreeTime_ 1;;;
  start 0 [];;;
  s1 <- submitTask_package (fun _ => add1 1 2);;
  pc1 <- submitTask_locked 0 (fst s1) (snd s1) false 0;;
  pc2 <- threadFunc_lock 0;;
  threadFunc_proceed pc2;;;
  pc3 <- threadFunc_lock 0;;
  ret (pc1, pc2, pc3).

(** A second task is submitted while that worker is inside [wait_for], and
    the wait then reports a timeout, one second after the worker finished
    its task (at clock reading 0). *)
Definition scenario_retire_race : M (RtType := Z) (SubmitPc * WorkerPc) :=
  scenario_idle_worker;;;
  s2 <- submitTask_package (fun _ => add2 1 2 3);;
  pc4 <- submitTask_locked 0 (fst s2) (snd s2) false 1;;
  pc5 <- threadFunc_wait_for_returns 0 0 timeout (1 * Chrono.ticks_per_second);;
  ret (pc4, pc5).

(** Two tasks are submitted to a pool that has not been started; the pool
    is then configured as a cached pool with a queue of capacity one. *)
Definition scenario_lowered_bound : M (RtType := Z) unit :=
  s1 <- submitTask_package (fun _ => add1 1 2);;
  submitTask_locked 0 (fst s1) (snd s1) false 0;;;
  s2 <- submitTask_package (fun _ => add2 1 2 3);;
  submitTask_locked 0 (fst s2) (snd s2) false 0;;;
  setMode MODE_CACHED;;;
  setTaskQueueMaxSize 1.

(** A cached pool with the default idle timeout of 60 seconds, started
    empty, grows one worker, which runs a task and goes to wait. *)
Definition scenario_patient_worker : M (RtType := Z) (SubmitPc * WorkerPc) :=
  setMode MODE_CACHED;;;
  start 0 [];;;
  s1 <- submitTask_package (fun _ => add1 1 2);;
  pc1 <- submitTask_locked 0 (fst s1) (snd s1) false 0;;
  pc2 <- threadFunc_lock 0;;
  threadFunc_proceed pc2;;;
  pc3 <- threadFunc_lock 0;;
  ret (pc1, pc3).

(** The worker finished its task when the clock read 10 seconds; its wait
    of one second times out, and the clock, set back meanwhile, reads 9
    seconds. *)
Definition scenario_clock_set_back : M (RtType := Z) (SubmitPc * WorkerPc * WorkerPc) :=
  pcs <- scenario_patient_worker;;
  pc4 <- threadFunc_wait_for_returns 0 (10 * Chrono.ticks_per_second) timeout
           (9 * Chrono.ticks_per_second);;
  ret (pcs, pc4).

(** ** Runs of a worker, teardown and further invariants *)

Section Further.

Context {RtType : Type} (RtType_default : RtType).

(** [n] turns of the body of [for (;;)] by one worker that takes the lock,
    proceeds with what it found and comes back, with no other thread in
    between. *)
Fixpoint worker_iterations (n : nat) (threadId : Z) : M (RtType := RtType) unit :=
  match n with
  | O => ret tt
  | S n' =>
      pc <- threadFunc_lock threadId;;
      threadFunc_proceed pc;;;
      worker_iterations n' threadId
  end.

(** How a worker comes to hold the mutex: at the top of [for (;;)], on the
    return of [queueNotEmpty_.wait], or on the return of
    [queueNotEmpty_.wait_for] with a status and, for a timeout, a clock
    reading. *)
Inductive WorkerEntry :=
| EntryLock
| EntryWait
| EntryWaitFor (threadLastWorkTime : Z) (status : cv_status) (now : Z).

(** The critical section that the worker runs from there. *)
Definition threadFunc_enter (entry : WorkerEntry) (threadId : Z)
    : M (RtType := RtType) WorkerPc :=
  match entry with
  | EntryLock => threadFunc_lock threadId
  | EntryWait => threadFunc_wait_returns threadId
  | EntryWaitFor last status now => threadFunc_wait_for_returns threadId last status now
  end.

(** The test of the retire branch as the thread function evaluates it: the
    wait timed out, [dur.count()], converted to [size_t], is at least
    [maxThreadFreeTime_], and the map holds more than [initThreadSize_]
    workers. *)
Definition takes_retire_branch (entry : WorkerEntry) (p : ThreadPool) : Prop :=
  match entry with
  | EntryWaitFor last timeout now =>
      maxThreadFreeTime_ p <= Int.to_size_t (Chrono.seconds (now - last)) /\
      initThreadSize_ p < Z.of_nat (size (threadsMap_ p))
  | _ => False
  end.

(** No worker of [wakes] takes the retire branch when its turn comes; the
    test of each is evaluated in the map that the workers before it have
    left. *)
Fixpoint no_worker_retires (p : ThreadPool) (wakes : list (Z * WorkerEntry)) : Prop :=
  match wakes with
  | [] => True
  | (threadId, entry) :: wakes' =>
      ~ takes_retire_branch entry p /\
      no_worker_retires (set_threadsMap_ (delete threadId (threadsMap_ p)) p) wakes'
  end.

(** A worker on its own, from where it stands after a critical section: as
    long as it has taken a task it executes the task, counts itself idle
    and takes the lock again; it stops when it goes to wait or returns.
    [fuel] bounds the number of tasks it runs. *)
Fixpoint worker_continues (fuel : nat) (threadId : Z) (pc : WorkerPc)
    : M (RtType := RtType) WorkerPc :=
  match fuel, pc with
  | S fuel', WorkerExecute _ =>
      threadFunc_proceed pc;;;
      pc' <- threadFunc_lock threadId;;
      worker_continues fuel' threadId pc'
  | _, _ => ret pc
  end.

(** A worker comes to hold the mutex and goes on from there. *)
Definition worker_resumes (entry : WorkerEntry) (fuel : nat) (threadId : Z)
    : M (RtType := RtType) WorkerPc :=
  pc <- threadFunc_enter entry threadId;;
  worker_continues fuel threadId pc.

Definition get_trace : M (RtType := RtType) (list Action) :=
  fun w => Some (trace w, w).

(** Whether [cv] was notified by one of the actions that follow the first
    [n] of the trace. *)
Definition notified_since (cv : CondVar) (n : nat) : M (RtType := RtType) bool :=
  tr <- get_trace;;
  ret (bool_decide (NotifyAll cv ∈ drop n tr)).

(** The destructor is inside [waitForWorkFinished_.wait(lock, pred)] while
    the workers [wakes] come to hold the mutex one after the other, each in
    its own way.  When the critical section of a worker has notified
    [waitForWorkFinished_], the destructor is the next to hold the mutex
    and evaluates its test again; otherwise it stays inside the wait.  Once
    the destructor has returned the pool is destroyed, and a worker that
    still touches it is undefined. *)
Fixpoint teardown_wakes (dtor : DtorPc) (wakes : list (Z * WorkerEntry))
    : M (RtType := RtType) (DtorPc * list WorkerPc) :=
  match wakes with
  | [] => ret (dtor, [])
  | (threadId, entry) :: wakes' =>
      match dtor with
      | DtorReturn => undefined
      | DtorWaiting =>
          tr <- get_trace;;
          pc <- threadFunc_enter entry threadId;;
          notified <- notified_since waitForWorkFinished_ (length tr);;
          dtor' <- (if notified : bool then dtor_wait_test else ret DtorWaiting);;
          r <- teardown_wakes dtor' wakes';;
          ret (fst r, pc :: snd r)
      end
  end.

(** The destructor: it stops the pool, takes the lock, notifies
    [queueNotEmpty_] and tests the worker map; then the workers [wakes]
    wake.  The results are the outcome of the first test, where each worker
    goes, and where the destructor stands in the end. *)
Definition teardown (wakes : list (Z * WorkerEntry))
    : M (RtType := RtType) (DtorPc * list WorkerPc * DtorPc) :=
  dtor_stop;;;
  pc1 <- dtor_lock;;
  r <- teardown_wakes pc1 wakes;;
  ret (pc1, snd r, fst r).

(** The closures in [q] can be called one after the other: they capture
    different packaged tasks, none of which has been called. *)
Definition runnable (h : list (@PackagedTask RtType)) (q : list Task) : Prop :=
  NoDup q /\
  forall p, InvokePackaged p ∈ q -> exists f, h !! p = Some (mkPackagedTask f NotReady).

(** [taskSize_] is the size of the queue, as an [unsigned]. *)
Definition counter_tracks_queue (w : @World RtType) : Prop :=
  taskSize_ (pool w) = Int.to_uint (Z.of_nat (length (taskQueue_ (pool w)))).

(** What an operation does to the queue and to [taskSize_] together. *)
Inductive CounterEffect (p p' : ThreadPool) : Prop :=
| CounterKept :
    taskQueue_ p' = taskQueue_ p -> taskSize_ p' = taskSize_ p ->
    CounterEffect p p'
| CounterUp t :
    taskQueue_ p' = taskQueue_ p ++ [t] ->
    taskSize_ p' = Int.to_uint (taskSize_ p + 1) ->
    CounterEffect p p'
| CounterDown t :
    taskQueue_ p = t :: taskQueue_ p' ->
    taskSize_ p' = Int.to_uint (taskSize_ p - 1) ->
    CounterEffect p p'.

(** What an operation other than [start] does to the worker map. *)
Inductive MapEffect (p p' : ThreadPool) : Prop :=
| MapKept :
    threadsMap_ p' = threadsMap_ p -> MapEffect p p'
| MapGrown threadId :
    poolMode_ p = MODE_CACHED ->
    threadsMap_ p !! threadId = None ->
    threadsMap_ p' = <[threadId := mkThread threadId]> (threadsMap_ p) ->
    Z.of_nat (size (threadsMap_ p)) < maxThreadSize_ p ->
    MapEffect p p'
| MapRetired threadId :
    threadsMap_ p' = delete threadId (threadsMap_ p) ->
    initThreadSize_ p < Z.of_nat (size (threadsMap_ p)) ->
    MapEffect p p'
| MapLeft threadId :
    threadsMap_ p' = delete threadId (threadsMap_ p) ->
    isPoolRunning_ p = false ->
    MapEffect p p'.

Definition is_start (op : @Op RtType) : Prop :=
  match op with OpStart _ _ => True | _ => False end.

(** A step of a program that has called [start] before and does not call
    it again. *)
Definition step_started (w w' : @World RtType) : Prop :=
  exists op, exec RtType_default op w = Some w' /\ ~ is_start op.

(** A call of [setMaxThreadSize] that takes effect. *)
Definition assigns_maxThreadSize (op : @Op RtType) (w : @World RtType) : Prop :=
  match op with
  | OpSetMaxThreadSize _ => isPoolRunning_ (pool w) = false
  | _ => False
  end.

(** A step of a program that has called [start] and configured
    [maxThreadSize_] before. *)
Definition step_grown (w w' : @World RtType) : Prop :=
  exists op, exec RtType_default op w = Some w' /\
    ~ is_start op /\ ~ assigns_maxThreadSize op w.


(** The world with [isPoolRunning_] set to [b]. *)
Definition with_running (b : bool) (w : @World RtType) : World :=
  mkWorld (set_isPoolRunning_ b (pool w)) (heap w) (trace w).

(** The configuration of a cached pool as the README has it, mode first,
    and with the mode set last. *)
Definition configure_mode_first (maxSize_ time : Z) : M (RtType := RtType) unit :=
  setMode MODE_CACHED;;;
  setTaskQueueMaxSize maxSize_;;;
  setMaxThreadFreeTime_ time.

Definition configure_mode_last (maxSize_ time : Z) : M (RtType := RtType) unit :=
  setTaskQueueMaxSize maxSize_;;;
  setMaxThreadFreeTime_ time;;;
  setMode MODE_CACHED.

(** The actions of the two loops of [start]. *)
Definition create_actions (ids : list Z) : list Action := MapEmplace <$> ids.

Definition launch_actions (i : Z) (n : nat) : list Action :=
  flat_map (fun k => [ThreadStart k; IncIdleThreadSize]) (seqZ i (Z.of_nat n)).

(** The worker map after the first loop of [start] has emplaced handles
    with the ids [ids], none of which was a key. *)
Definition map_created (ids : list Z) (m : gmap Z Thread) : gmap Z Thread :=
  foldl (fun m id => <[id := mkThread id]> m) m ids.

End Further.

(** ** Further scenarios *)

(** A pool of two workers to which the two tasks of the README have been
    submitted. *)
Definition scenario_two_tasks : M (RtType := Z) unit :=
  scenario_fixed_pool;;;
  s1 <- submitTask_package (fun _ => add1 1 2);;
  submitTask_locked 0 (fst s1) (snd s1) false 2;;;
  s2 <- submitTask_package (fun _ => add2 1 2 3);;
  submitTask_locked 0 (fst s2) (snd s2) false 3;;;
  ret tt.

(** A cached pool started with two workers. *)
Definition scenario_cached_pair : M (RtType := Z) unit :=
  setMode MODE_CACHED;;;
  start 2 [0; 1].

(** How its two workers, both inside [wait_for], come back when the
    destructor runs: the wait of the first times out after 61 seconds of
    idleness, the second is notified. *)
Definition cached_pair_wakes : list (Z * WorkerEntry) :=
  [(0, EntryWaitFor 0 timeout (61 * Chrono.ticks_per_second));
   (1, EntryWaitFor 0 no_timeout 0)].

(** The same pool after the destructor has cleared [isPoolRunning_]. *)
Definition scenario_two_tasks_stopped : M (RtType := Z) unit :=
  scenario_two_tasks;;;
  dtor_stop.

(** * Properties *)

(** ** Machine integers *)

Lemma to_size_t_range z : 0 <= Int.to_size_t z < 2 ^ 64.
Proof. unfold Int.to_size_t. apply Z.mod_pos_bound. lia. Qed.

Lemma to_size_t_small z : 0 <= z < 2 ^ 64 -> Int.to_size_t z = z.
Proof. intros. unfold Int.to_size_t. apply Z.mod_small. lia. Qed.

Lemma to_uint_range z : 0 <= Int.to_uint z < 2 ^ 32.
Proof. unfold Int.to_uint. apply Z.mod_pos_bound. lia. Qed.

Lemma to_uint_small z : 0 <= z < 2 ^ 32 -> Int.to_uint z = z.
Proof. intros. unfold Int.to_uint. apply Z.mod_small. lia. Qed.

Lemma to_int_range z : - 2 ^ 31 <= Int.to_int z < 2 ^ 31.
Proof.
  unfold Int.to_int.
  pose proof (Z.mod_pos_bound (z + 2 ^ 31) (2 ^ 32)). lia.
Qed.

Lemma to_int_small z : - 2 ^ 31 <= z < 2 ^ 31 -> Int.to_int z = z.
Proof. intros. unfold Int.to_int. rewrite Z.mod_small; lia. Qed.

(** Two decrements of an [int] are a subtraction of two, wrap-around
    included. *)
Lemma to_int_dec_dec z : Int.to_int (Int.to_int (z - 1) - 1) = Int.to_int (z - 2).
Proof.
  unfold Int.to_int.
  replace ((z - 1 + 2 ^ 31) mod 2 ^ 32 - 2 ^ 31 - 1 + 2 ^ 31)
    with ((z - 1 + 2 ^ 31) mod 2 ^ 32 + (- 1)) by lia.
  rewrite Zplus_mod_idemp_l. f_equal. f_equal. lia.
Qed.

(** The idle time of a worker in seconds, for a clock that does not run
    backwards. *)
Lemma seconds_range d : 0 <= d < 2 ^ 63 -> 0 <= Chrono.seconds d < 2 ^ 64.
Proof.
  intros Hd. unfold Chrono.seconds, Chrono.ticks_per_second.
  rewrite Z.quot_div_nonneg by lia.
  split; [apply Z.div_pos; lia|].
  apply Z.div_lt_upper_bound; lia.
Qed.

Section Properties.

Context {RtType : Type} (RtType_default : RtType).

Implicit Types (w : @World RtType) (p : ThreadPool) (op : @Op RtType).

Ltac unfold_prims :=
  cbv [dec_idleThreadSize_ inc_idleThreadSize_ dec_taskSize_ inc_taskSize_
       taskQueue_size taskQueue_emplace taskQueue_front taskQueue_pop
       taskQueue_empty notify_all threadsMap_size threadsMap_emplace
       threadsMap_erase threadsMap_start cout cerr isRunningState
       make_shared_packaged_task get_future packaged_task_call
       packaged_task_destroy Task_call
       bind ret gets modify emit undefined get_heap put_heap when run] in *.

Ltac unfold_members :=
  cbv [setMode setMaxThreadSize setMaxThreadFreeTime_ setTaskQueueMaxSize
       submitTask_package submitTask_locked submitTask_enqueue submitTask_fail
       threadFunc_lock threadFunc_wait_for_returns threadFunc_wait_returns
       threadFunc_while threadFunc_take threadFunc_execute threadFunc_done
       dtor_stop dtor_lock dtor_wait_test] in *.

(** Opens a world into its fields and runs the member function on them. *)
Ltac open_world w :=
  destruct w as [[] ? ?]; unfold_members; unfold_prims; simpl in *.

(** ** Traces *)

Lemma emplaced_app (a b : list Action) : emplaced (a ++ b) = emplaced a ++ emplaced b.
Proof. apply omap_app. Qed.

Lemma fronted_app (a b : list Action) : fronted (a ++ b) = fronted a ++ fronted b.
Proof. apply omap_app. Qed.

(** ** What an operation does to the queue *)

Lemma start_create_frame ids w w' :
  start_create ids w = Some (tt, w') -> start_frame_of w w'.
Proof.
  revert w. induction ids as [|id ids IH]; intros w H; simpl in H.
  - unfold_prims. simplify_eq. exists []. rewrite app_nil_r. done.
  - unfold bind at 1 in H.
    destruct (threadsMap_emplace id (mkThread id) w) as [[[] w1]|] eqn:E; [|done].
    apply IH in H as (acts & Ht & He & Hf & Hh & Hq & Hm).
    destruct w as [[] h tr]. unfold_prims. simpl in *. simplify_eq.
    exists (MapEmplace id :: acts). simpl in *.
    rewrite Ht, Hh, Hq, Hm, <- app_assoc. simpl. repeat split; try done.
    all: case_match; done.
Qed.

Lemma start_launch_frame n i w w' :
  start_launch n i w = Some (tt, w') -> start_frame_of w w'.
Proof.
  revert i w. induction n as [|n IH]; intros i w H; simpl in H.
  - unfold_prims. simplify_eq. exists []. rewrite app_nil_r. done.
  - unfold bind at 1 in H.
    destruct (threadsMap_start i w) as [[[] w1]|] eqn:E1; [|done].
    unfold bind at 1 in H.
    destruct (inc_idleThreadSize_ w1) as [[[] w2]|] eqn:E2; [|done].
    apply IH in H as (acts & Ht & He & Hf & Hh & Hq & Hm).
    destruct w as [[] h tr]. unfold_prims. simpl in *.
    case_match; simplify_eq. simpl in *.
    eexists (ThreadStart _ :: IncIdleThreadSize :: acts).
    rewrite Ht, Hh, Hq, Hm, <- !app_assoc. simpl. done.
Qed.

Lemma start_frame n ids w w' :
  start n ids w = Some (tt, w') -> start_frame_of w w'.
Proof.
  unfold start. intros H.
  unfold bind at 1 in H. simpl in H. unfold bind at 1 in H. simpl in H.
  case_decide; [|done].
  unfold bind at 1 in H.
  match type of H with
  | context [start_create ids ?w0] =>
      destruct (start_create ids w0) as [[[] w1]|] eqn:E1; [|done]
  end.
  apply start_create_frame in E1 as (a1 & Ht1 & He1 & Hf1 & Hh1 & Hq1 & Hm1).
  apply start_launch_frame in H as (a2 & Ht2 & He2 & Hf2 & Hh2 & Hq2 & Hm2).
  exists (a1 ++ a2). rewrite emplaced_app, fronted_app.
  rewrite Ht2, Ht1, Hh2, Hh1, Hq2, Hq1, Hm2, Hm1, He1, He2, Hf1, Hf2, <- app_assoc.
  destruct w as [[] h tr]; done.
Qed.

Lemma exec_queue_effect op w w' :
  exec RtType_default op w = Some w' ->
  exists acts, trace w' = trace w ++ acts /\
    QueueEffect (pool w) (pool w') acts /\
    (taskQueueMaxSize_ (pool w') = taskQueueMaxSize_ (pool w) \/
     bound_assigned op w w').
Proof.
  intros H. destruct op; simpl in H.
  5: { unfold run in H.
       destruct (start initThreadSize ids w) as [[[] w1]|] eqn:E; simplify_eq/=.
       apply start_frame in E as (acts & Ht & He & Hf & Hh & Hq & Hm).
       exists acts. split; [done|]. split; [by apply QueueKept|by left]. }
  all: open_world w.
  all: simplify_eq/=; repeat (case_match; simplify_eq/=).
  all: try (exists []; rewrite app_nil_r; split; [done|];
            split; [by apply QueueKept|tauto]).
  all: try (eexists; split; [rewrite <- ?app_assoc; simpl; reflexivity|];
            split; [|tauto]).
  all: try (by apply QueueKept).
  all: try (eapply QueuePushed; simpl; try done; lia).
  all: try (eapply QueuePopped; simpl; try done).
Qed.

Lemma step_configured_bounded w w' :
  queue_bounded w -> step_configured RtType_default w w' -> queue_bounded w'.
Proof.
  unfold queue_bounded. intros Hb (op & Hop & Hcfg).
  apply exec_queue_effect in Hop as (acts & _ & Hq & [Hmax|Hset]).
  - rewrite Hmax.
    destruct Hq as [-> _ _|t -> Hlt _ _|t Hq _ _]; [done|..].
    + rewrite length_app. simpl. lia.
    + rewrite Hq in Hb. simpl in Hb. lia.
  - destruct op; try done. simpl in Hset, Hcfg.
    destruct Hset as (Hrun & Hmode & ->).
    assert (~ Int.to_size_t maxSize_ < Z.of_nat (length (taskQueue_ (pool w))))
      by tauto.
    destruct w as [[] ? ?]; simpl in *. lia.
Qed.

Lemma step_fifo_history w w' :
  fifo_history w -> step RtType_default w w' -> fifo_history w'.
Proof.
  unfold fifo_history. intros Hh (op & Hop).
  apply exec_queue_effect in Hop as (acts & -> & Hq & _).
  rewrite emplaced_app, fronted_app, Hh.
  destruct Hq as [-> -> ->|t -> _ -> ->|t Hq -> ->].
  - by rewrite !app_nil_r.
  - by rewrite app_nil_r, app_assoc.
  - rewrite Hq, app_nil_r, <- app_assoc. done.
Qed.

(** ** The queue and its bound *)

Lemma rtc_step_configured_bounded w w' :
  queue_bounded w -> rtc (step_configured RtType_default) w w' -> queue_bounded w'.
Proof. intros Hb Hs. induction Hs; eauto using step_configured_bounded. Qed.

(** One critical section of [submitTask], by cases on the test of the
    queue size. *)
Lemma submitTask_locked_queue task result expired threadId w pc w' :
  submitTask_locked RtType_default task result expired threadId w = Some (pc, w') ->
  if Z.of_nat (length (taskQueue_ (pool w))) <? taskQueueMaxSize_ (pool w)
  then taskQueue_ (pool w') = taskQueue_ (pool w) ++ [InvokePackaged task] /\
       taskQueueMaxSize_ (pool w') = taskQueueMaxSize_ (pool w)
  else pool w' = pool w.
Proof.
  intros H. open_world w.
  repeat (case_match; simplify_eq/=); done.
Qed.

(** C3, amended. As long as no call of [setTaskQueueMaxSize] puts the bound
    itself below what is already queued, the size of the task queue never
    exceeds [taskQueueMaxSize_]: in every world that a program reaches from
    one in which the bound holds, by any interleaving of the operations of
    its threads without such a call, the bound holds, and a critical
    section of [submitTask] run there keeps it; the task is appended
    exactly when the size was found below the maximum, and otherwise, in
    particular when the wait for room has run out, the queue and the task
    counter are left as they were. *)
Theorem taskQueue_never_exceeds_max w w' :
  queue_bounded w ->
  rtc (step_configured RtType_default) w w' ->
  queue_bounded w' /\
  forall task result expired threadId pc w'',
    submitTask_locked RtType_default task result expired threadId w' = Some (pc, w'') ->
    queue_bounded w'' /\
    if Z.of_nat (length (taskQueue_ (pool w'))) <? taskQueueMaxSize_ (pool w')
    then taskQueue_ (pool w'') = taskQueue_ (pool w') ++ [InvokePackaged task]
    else taskQueue_ (pool w'') = taskQueue_ (pool w') /\
         taskSize_ (pool w'') = taskSize_ (pool w').
Proof.
  intros Hb Hs.
  assert (queue_bounded w') as Hb' by eauto using rtc_step_configured_bounded.
  split; [done|]. intros task result expired threadId pc w'' H.
  apply submitTask_locked_queue in H. unfold queue_bounded in *.
  destruct (Z.ltb_spec (Z.of_nat (length (taskQueue_ (pool w')))) (taskQueueMaxSize_ (pool w'))).
  - destruct H as [Hq Hm]. rewrite Hq, Hm, length_app. simpl. split; [lia|done].
  - rewrite H. done.
Qed.

(** ** First in, first out *)

Lemma rtc_step_fifo_history w w' :
  fifo_history w -> rtc (step RtType_default) w w' -> fifo_history w'.
Proof. intros Hb Hs. induction Hs; eauto using step_fifo_history. Qed.

Lemma threadFunc_while_take threadId t q w :
  taskQueue_ (pool w) = t :: q ->
  threadFunc_while threadId w = Some (WorkerExecute t, World_taken t q w).
Proof.
  intros H. unfold World_taken. open_world w. subst. simpl.
  destruct q; simpl; rewrite <- ?app_assoc; reflexivity.
Qed.

(** C8. A worker that finds the queue non-empty decrements the idle
    counter, reads and removes the task at the front, decrements the task
    counter, notifies [queueNotFull_] and, only if tasks remain, notifies
    [queueNotEmpty_], in this order: the idle counter and the task counter
    are each one lower, the queue is what was behind the front, and nothing
    else has changed.  In every world that a program reaches, the tasks
    read at the front so far, followed by the tasks still queued, are the
    tasks emplaced so far in the order of their submission; so the task
    that the worker takes is the oldest of those that no worker has taken
    yet. *)
Theorem worker_dequeues_in_fifo_order w w' threadId t q :
  fifo_history w ->
  rtc (step RtType_default) w w' ->
  taskQueue_ (pool w') = t :: q ->
  exists w'',
    threadFunc_while threadId w' = Some (WorkerExecute t, w'') /\
    w'' = World_taken t q w' /\
    trace w'' = trace w' ++
      [DecIdleThreadSize; QueueFront t; QueuePop; DecTaskSize; NotifyAll queueNotFull_] ++
      match q with [] => [] | _ :: _ => [NotifyAll queueNotEmpty_] end /\
    idleThreadSize_ (pool w'') = Int.to_int (idleThreadSize_ (pool w') - 1) /\
    (- 2 ^ 31 < idleThreadSize_ (pool w') < 2 ^ 31 ->
     idleThreadSize_ (pool w'') = idleThreadSize_ (pool w') - 1) /\
    taskQueue_ (pool w'') = q /\
    taskSize_ (pool w'') = Int.to_uint (taskSize_ (pool w') - 1) /\
    (0 < taskSize_ (pool w') < 2 ^ 32 ->
     taskSize_ (pool w'') = taskSize_ (pool w') - 1) /\
    threadsMap_ (pool w'') = threadsMap_ (pool w') /\
    heap w'' = heap w' /\
    emplaced (trace w') = fronted (trace w') ++ t :: q /\
    emplaced (trace w'') = emplaced (trace w') /\
    fronted (trace w'') = fronted (trace w') ++ [t] /\
    emplaced (trace w'') = fronted (trace w'') ++ q.
Proof.
  intros Hh Hs Hq.
  assert (fifo_history w') as Hh' by eauto using rtc_step_fifo_history.
  exists (World_taken t q w').
  split; [by apply threadFunc_while_take|]. split; [done|].
  unfold fifo_history in *. rewrite Hq in Hh'.
  unfold World_taken. simpl. rewrite !emplaced_app, !fronted_app, Hh'.
  destruct w' as [[tm its mts mft idle q0 ts qmax pm running] h tr]. simpl in *.
  split; [done|]. split; [done|].
  split; [intros; apply to_int_small; lia|]. split; [done|]. split; [done|].
  split; [intros; apply to_uint_small; lia|]. split; [done|]. split; [done|].
  split; [done|].
  destruct q; simpl; rewrite ?app_nil_r, <- ?app_assoc; done.
Qed.

(** ** Packaged tasks *)

(** A packaged task is changed only through a shared pointer to it. *)
Lemma exec_heap_stable op w w' (c : ptr) pt :
  exec RtType_default op w = Some w' ->
  ~ uses op c ->
  heap w !! c = Some pt ->
  heap w' !! c = Some pt.
Proof.
  intros H Hc Hpt. pose proof (lookup_lt_Some _ _ _ Hpt) as Hlt.
  destruct op; simpl in H, Hc.
  5: { unfold run in H.
       destruct (start initThreadSize ids w) as [[[] w1]|] eqn:E; simplify_eq/=.
       apply start_frame in E as (acts & Ht & He & Hf & Hh & Hq & Hm).
       by rewrite Hh. }
  all: try match goal with t : Task |- _ => destruct t end.
  all: open_world w.
  all: simplify_eq/=; repeat (case_match; simplify_eq/=); try done.
  all: rewrite ?list_lookup_insert_ne by (try done; lia).
  all: rewrite ?lookup_app_l by lia; done.
Qed.

Lemma rtc_step_without_heap (c : ptr) pt w w' :
  rtc (step_without RtType_default c) w w' ->
  heap w !! c = Some pt ->
  heap w' !! c = Some pt.
Proof.
  intros Hs. induction Hs as [|w1 w2 w3 (op & Hop & Hc) _ IH]; [done|].
  intros Hpt. apply IH. by eapply exec_heap_stable.
Qed.

Lemma submitTask_package_spec bound w :
  submitTask_package bound w =
    Some ((length (heap w), Future (length (heap w))), World_packaged bound w).
Proof. by open_world w. Qed.

(** With room in the queue, the critical section of [submitTask] returns
    the future it was given, appends the closure and leaves the packaged
    tasks alone. *)
Lemma submitTask_locked_room task result expired threadId w :
  Z.of_nat (length (taskQueue_ (pool w))) < taskQueueMaxSize_ (pool w) ->
  exists w',
    submitTask_locked RtType_default task result expired threadId w
      = Some (SubmitReturn result, w') /\
    taskQueue_ (pool w') = taskQueue_ (pool w) ++ [InvokePackaged task] /\
    heap w' = heap w.
Proof.
  intros Hlt. apply Z.ltb_lt in Hlt.
  destruct w as [[tm its mts mft idle q ts qmax mode running] h tr].
  unfold_members; unfold_prims; simpl in *. rewrite Hlt.
  destruct (_ && _ && _); simpl; [|eauto].
  destruct (tm !! threadId) eqn:E; simpl; [rewrite E; eauto|].
  rewrite lookup_insert_eq. eauto.
Qed.

Lemma threadFunc_execute_spec (task : ptr) bound w :
  heap w !! task = Some (mkPackagedTask bound NotReady) ->
  exists w',
    threadFunc_execute (InvokePackaged task) w = Some (tt, w') /\
    pool w' = pool w /\
    future_state (Future task) w' = Some (Value (bound tt)).
Proof.
  intros Hpt. pose proof (lookup_lt_Some _ _ _ Hpt) as Hlt.
  unfold future_state. open_world w. rewrite Hpt. simpl.
  eexists. split; [done|]. simpl. split; [done|].
  by rewrite list_lookup_insert_eq.
Qed.

(** C2. A call of [submitTask] packages the bound callable and obtains the
    future; when the call finds room in the queue it returns that future
    and the closure is queued behind the tasks already there; and when a
    worker then calls the closure, the future holds the value of the
    callable applied to its arguments.  Between these moments the other
    threads take any steps that do not go through the shared pointer of
    this call. *)
Theorem submitted_task_resolves_future bound expired threadId w w1 :
  rtc (step_without RtType_default (length (heap w))) (World_packaged bound w) w1 ->
  Z.of_nat (length (taskQueue_ (pool w1))) < taskQueueMaxSize_ (pool w1) ->
  submitTask_package bound w
    = Some ((length (heap w), Future (length (heap w))), World_packaged bound w) /\
  exists w2,
    submitTask_locked RtType_default (length (heap w)) (Future (length (heap w)))
        expired threadId w1
      = Some (SubmitReturn (Future (length (heap w))), w2) /\
    taskQueue_ (pool w2) = taskQueue_ (pool w1) ++ [InvokePackaged (length (heap w))] /\
    future_state (Future (length (heap w))) w2 = Some NotReady /\
    forall w3,
      rtc (step_without RtType_default (length (heap w))) w2 w3 ->
      exists w4,
        threadFunc_execute (InvokePackaged (length (heap w))) w3 = Some (tt, w4) /\
        future_state (Future (length (heap w))) w4 = Some (Value (bound tt)).
Proof.
  intros Hs1 Hroom. split; [apply submitTask_package_spec|].
  set (task := length (heap w)) in *.
  assert (heap w1 !! task = Some (mkPackagedTask bound NotReady)) as H1.
  { eapply rtc_step_without_heap; [done|]. simpl. subst task.
    by rewrite lookup_app_r, Nat.sub_diag by lia. }
  destruct (submitTask_locked_room task (Future task) expired threadId w1 Hroom)
    as (w2 & Hsub & Hq & Hh).
  exists w2. split; [done|]. split; [done|]. split.
  { unfold future_state. by rewrite Hh, H1. }
  intros w3 Hs2.
  assert (heap w3 !! task = Some (mkPackagedTask bound NotReady)) as H3.
  { eapply rtc_step_without_heap; [done|]. by rewrite Hh. }
  destruct (threadFunc_execute_spec task bound w3 H3) as (w4 & ? & _ & ?).
  eauto.
Qed.

(** ** Growth of a cached pool *)

(** The unsigned comparison agrees with the comparison of the integers
    when the idle counter is not negative. *)
Lemma growth_test_spec p :
  0 <= idleThreadSize_ p < 2 ^ 31 ->
  bool_decide (poolMode_ p = MODE_CACHED)
    && (Int.to_uint (idleThreadSize_ p) <? taskSize_ p)
    && (Z.of_nat (size (threadsMap_ p)) <? maxThreadSize_ p) = true
  <-> growth_condition p.
Proof.
  intros Hidle. unfold growth_condition.
  rewrite to_uint_small by lia.
  rewrite !andb_true_iff, bool_decide_eq_true, !Z.ltb_lt. tauto.
Qed.

(** C4, amended. A call of [submitTask] that enqueues its task, made with
    an idle counter that is not negative, creates and starts a worker if
    and only if the mode is cached, the task counter, the new task
    included, exceeds the idle counter, and the number of workers is below
    [maxThreadSize_].  It starts at most one worker, the number of workers
    grows by at most one, and only while it is below [maxThreadSize_], so
    growth never takes it above. *)
Theorem submitTask_grows_by_one_below_max task result expired threadId w :
  Z.of_nat (length (taskQueue_ (pool w))) < taskQueueMaxSize_ (pool w) ->
  0 <= idleThreadSize_ (pool w) < 2 ^ 31 ->
  exists w' acts,
    submitTask_locked RtType_default task result expired threadId w
      = Some (SubmitReturn result, w') /\
    trace w' = trace w ++ enqueue_actions task ++ acts /\
    (started acts <> [] <-> growth_condition (pool_enqueued task (pool w))) /\
    (growth_condition (pool_enqueued task (pool w)) ->
       threadsMap_ (pool w) !! threadId = None ->
       acts = growth_actions threadId /\
       threadsMap_ (pool w') = <[threadId := mkThread threadId]> (threadsMap_ (pool w))) /\
    (~ growth_condition (pool_enqueued task (pool w)) ->
       acts = [] /\ threadsMap_ (pool w') = threadsMap_ (pool w)) /\
    (length (started acts) <= 1)%nat /\
    (size (threadsMap_ (pool w')) <= S (size (threadsMap_ (pool w))))%nat /\
    maxThreadSize_ (pool w') = maxThreadSize_ (pool w) /\
    (Z.of_nat (size (threadsMap_ (pool w))) <= maxThreadSize_ (pool w) ->
     Z.of_nat (size (threadsMap_ (pool w'))) <= maxThreadSize_ (pool w')).
Proof.
  intros Hroom Hidle.
  pose proof (growth_test_spec (pool_enqueued task (pool w)) Hidle) as Htest.
  apply Z.ltb_lt in Hroom.
  destruct w as [[tm its mts mft idle q ts qmax mode running] h tr].
  unfold_members; unfold_prims; simpl in *. rewrite Hroom.
  destruct (_ && _ && _) eqn:Hgrow; simpl.
  - (* the growth branch *)
    pose proof (proj1 Htest eq_refl) as Hyes.
    destruct (proj1 Htest eq_refl) as (Hmode & Hcount & Hlt). simpl in Hlt.
    clear Htest.
    destruct (tm !! threadId) as [t|] eqn:E; simpl.
    + rewrite E. simpl.
      eexists _, [Cout MsgCreateNewThread; MapEmplace threadId;
                  ThreadStart (getId t); IncIdleThreadSize].
      split; [done|]. simpl. rewrite <- !app_assoc. simpl.
      repeat split; try done; try tauto; try lia.
    + rewrite lookup_insert_eq. simpl.
      eexists _, (growth_actions threadId).
      split; [done|]. simpl. rewrite <- !app_assoc. simpl.
      rewrite map_size_insert_None by done.
      repeat split; try done; try tauto; try lia.
  - (* no growth *)
    assert (~ growth_condition (pool_enqueued task
              (mkThreadPool tm its mts mft idle q ts qmax mode running))) as Hno.
    { intros Hc. apply Htest in Hc. done. }
    clear Htest.
    eexists _, []. split; [done|]. simpl. rewrite <- !app_assoc. simpl.
    repeat split; try done; try tauto; try lia.
Qed.

(** ** Retirement of idle workers *)

Lemma size_delete_ge (threadId : Z) (m : gmap Z Thread) :
  (size m <= S (size (delete threadId m)))%nat.
Proof. rewrite map_size_delete. destruct (m !! threadId); simpl; lia. Qed.

(** The test of the retire branch, read on the integers. *)
Lemma retire_test_spec (d : Z) p :
  0 <= d < 2 ^ 63 ->
  (maxThreadFreeTime_ p <=? Int.to_size_t (Chrono.seconds d))
    && (initThreadSize_ p <? Z.of_nat (size (threadsMap_ p))) = true
  <-> retire_condition (Chrono.seconds d) p.
Proof.
  intros Hd. unfold retire_condition.
  rewrite to_size_t_small by (apply seconds_range; lia).
  rewrite andb_true_iff, Z.leb_le, Z.ltb_lt. tauto.
Qed.

(** The [while] loop never takes the return of the retire branch, and
    leaves the worker map alone while the pool is running. *)
Lemma threadFunc_while_total threadId w :
  exists pc w',
    threadFunc_while threadId w = Some (pc, w') /\
    pc <> WorkerReturn ExitIdleTimeout /\
    (pc = WorkerReturn ExitPoolStopped ->
     taskQueue_ (pool w) = [] /\ isPoolRunning_ (pool w) = false) /\
    (isPoolRunning_ (pool w) = true -> threadsMap_ (pool w') = threadsMap_ (pool w)).
Proof.
  destruct (taskQueue_ (pool w)) as [|t q] eqn:Hq.
  - destruct w as [[tm its mts mft idle q ts qmax mode running] h tr].
    unfold_members; unfold_prims; simpl in *. subst q. simpl.
    destruct running; simpl; [destruct mode|]; eexists _, _;
      (split; [reflexivity|]); simpl; repeat split; try done.
  - exists (WorkerExecute t), (World_taken t q w).
    split; [by apply threadFunc_while_take|].
    destruct w as [[] ? ?]; simpl. repeat split; try done.
Qed.

Lemma threadFunc_retire threadId last now w :
  0 <= now - last < 2 ^ 63 ->
  retire_condition (Chrono.seconds (now - last)) (pool w) ->
  threadFunc_wait_for_returns threadId last timeout now w
    = Some (WorkerReturn ExitIdleTimeout, World_retired threadId w).
Proof.
  intros Hd Hc. apply retire_test_spec in Hc; [|done].
  unfold World_retired.
  destruct w as [[tm its mts mft idle q ts qmax mode running] h tr].
  unfold threadFunc_wait_for_returns. unfold_prims. simpl in *.
  rewrite Hc. simpl. rewrite to_int_dec_dec, <- !app_assoc. done.
Qed.

(** X16. With a clock that has not run backwards since the worker last
    finished a task, a worker that returns from its timed wait leaves
    through the retire branch exactly when the wait timed out, its idle
    time has reached [maxThreadFreeTime_] and the number of workers exceeds
    [initThreadSize_]; it then erases itself from the worker map, and the
    map still holds at least [initThreadSize_] workers.  In a running pool
    a worker that does not retire leaves the map as it is. *)
Theorem worker_retires_only_above_initThreadSize threadId last status now w :
  0 <= now - last < 2 ^ 63 ->
  exists pc w',
    threadFunc_wait_for_returns threadId last status now w = Some (pc, w') /\
    (pc = WorkerReturn ExitIdleTimeout <->
     status = timeout /\ retire_condition (Chrono.seconds (now - last)) (pool w)) /\
    (pc = WorkerReturn ExitIdleTimeout ->
     threadsMap_ (pool w') = delete threadId (threadsMap_ (pool w)) /\
     initThreadSize_ (pool w') = initThreadSize_ (pool w) /\
     initThreadSize_ (pool w') <= Z.of_nat (size (threadsMap_ (pool w')))) /\
    (isPoolRunning_ (pool w) = true ->
     pc <> WorkerReturn ExitIdleTimeout ->
     threadsMap_ (pool w') = threadsMap_ (pool w)).
Proof.
  intros Hd.
  destruct (threadFunc_while_total threadId w) as (pc & w' & Hw & Hpc & _ & Hmap).
  destruct status.
  { (* no_timeout *)
    exists pc, w'. split; [done|]. split; [|split].
    - split; [done|]. intros [? _]. done.
    - intros ?. done.
    - intros ? _. by apply Hmap. }
  destruct (decide (retire_condition (Chrono.seconds (now - last)) (pool w)))
    as [Hc|Hc].
  - exists (WorkerReturn ExitIdleTimeout), (World_retired threadId w).
    split; [by apply threadFunc_retire|]. split; [done|]. split; [|done].
    intros _. destruct Hc as [_ Hc].
    pose proof (size_delete_ge threadId (threadsMap_ (pool w))).
    destruct w as [[] ? ?]; simpl in *. repeat split; try done. lia.
  - exists pc, w'. split.
    + rewrite <- retire_test_spec in Hc by done. apply not_true_is_false in Hc.
      destruct w as [[] ? ?].
      unfold threadFunc_wait_for_returns in *. unfold_prims. simpl in *.
      rewrite Hc. done.
    + split; [|split].
      * split; [done|]. intros [_ ?]. done.
      * intros ?. done.
      * intros ? _. by apply Hmap.
Qed.

(** C6. On the retire branch the worker decrements [idleThreadSize_]
    twice: once before it erases itself from the worker map and once more
    before it returns.  The counter ends two lower, and the worker has
    left the map. *)
Theorem retiring_worker_decrements_idle_twice threadId last now w :
  0 <= now - last < 2 ^ 63 ->
  retire_condition (Chrono.seconds (now - last)) (pool w) ->
  exists w',
    threadFunc_wait_for_returns threadId last timeout now w
      = Some (WorkerReturn ExitIdleTimeout, w') /\
    trace w' = trace w ++
      [DecIdleThreadSize;
       Cout (MsgThreadsMapSize (Z.of_nat (size (threadsMap_ (pool w)))));
       Cout MsgTimeoutDeleteThread;
       MapErase threadId;
       DecIdleThreadSize] /\
    idleThreadSize_ (pool w') = Int.to_int (idleThreadSize_ (pool w) - 2) /\
    (- 2 ^ 31 + 2 <= idleThreadSize_ (pool w) < 2 ^ 31 ->
     idleThreadSize_ (pool w') = idleThreadSize_ (pool w) - 2) /\
    threadsMap_ (pool w') = delete threadId (threadsMap_ (pool w)).
Proof.
  intros Hd Hc. exists (World_retired threadId w).
  split; [by apply threadFunc_retire|].
  destruct w as [[] ? ?]; simpl. repeat split; try done.
  intros. apply to_int_small. lia.
Qed.

(** ** Configuration *)

(** C9. On a running pool each of the four setters returns at once: the
    world after the call is the world before it, so the mode, the maximal
    number of threads, the idle timeout and the bound of the queue are all
    as they were. *)
Theorem setters_leave_running_pool_unchanged mode maxSize time maxSize_ w :
  isPoolRunning_ (pool w) = true ->
  setMode mode w = Some (tt, w) /\
  setMaxThreadSize maxSize w = Some (tt, w) /\
  setMaxThreadFreeTime_ time w = Some (tt, w) /\
  setTaskQueueMaxSize maxSize_ w = Some (tt, w).
Proof.
  intros Hrun. unfold_members. unfold_prims. rewrite Hrun. done.
Qed.

(** C10. On a stopped pool in fixed mode, [setTaskQueueMaxSize] and
    [setMaxThreadFreeTime_] change nothing, so a freshly constructed pool
    keeps its bound [INT32_MAX] and its timeout of 60 seconds; in cached
    mode both assign their argument; [setMaxThreadSize] assigns its
    argument in either mode. *)
Theorem stopped_setters_need_cached_mode maxSize time maxSize_ w :
  isPoolRunning_ (pool w) = false ->
  (poolMode_ (pool w) = MODE_FIXED ->
   setTaskQueueMaxSize maxSize_ w = Some (tt, w) /\
   setMaxThreadFreeTime_ time w = Some (tt, w)) /\
  (poolMode_ (pool w) = MODE_CACHED ->
   setTaskQueueMaxSize maxSize_ w
     = Some (tt, mkWorld (set_taskQueueMaxSize_ (Int.to_size_t maxSize_) (pool w))
                   (heap w) (trace w)) /\
   setMaxThreadFreeTime_ time w
     = Some (tt, mkWorld (set_maxThreadFreeTime_ time (pool w)) (heap w) (trace w))) /\
  setMaxThreadSize maxSize w
    = Some (tt, mkWorld (set_maxThreadSize_ (Int.to_size_t maxSize) (pool w))
                  (heap w) (trace w)) /\
  (0 <= maxSize < 2 ^ 31 ->
   maxThreadSize_ (set_maxThreadSize_ (Int.to_size_t maxSize) (pool w)) = maxSize) /\
  poolMode_ ThreadPool_ctor = MODE_FIXED /\
  isPoolRunning_ ThreadPool_ctor = false /\
  taskQueueMaxSize_ ThreadPool_ctor = Int.INT32_MAX /\
  maxThreadFreeTime_ ThreadPool_ctor = 60.
Proof.
  intros Hrun. unfold_members. unfold_prims. rewrite Hrun.
  split; [intros ->; done|]. split; [intros ->; done|]. split; [done|].
  split; [|done]. intros ?. simpl. apply to_size_t_small. lia.
Qed.

(** ** Leaving the thread function *)

(** The return of the shutdown branch happens in the critical section in
    which the queue was found empty. *)
Lemma shutdown_return_with_empty_queue threadId w pc w' :
  threadFunc_while threadId w = Some (pc, w') ->
  pc = WorkerReturn ExitPoolStopped ->
  taskQueue_ (pool w) = [] /\ taskQueue_ (pool w') = [] /\
  isPoolRunning_ (pool w) = false.
Proof.
  intros H ->.
  destruct w as [[tm its mts mft idle q ts qmax mode running] h tr].
  destruct q; unfold_members; unfold_prims; simpl in *.
  all: repeat (case_match; simplify_eq/=).
  by destruct running.
Qed.

(** The retire branch does not look at the queue: whatever was queued while
    the worker was inside [wait_for] is still queued when it returns. *)
Lemma retire_return_keeps_queue threadId last now w :
  0 <= now - last < 2 ^ 63 ->
  retire_condition (Chrono.seconds (now - last)) (pool w) ->
  exists w',
    threadFunc_wait_for_returns threadId last timeout now w
      = Some (WorkerReturn ExitIdleTimeout, w') /\
    taskQueue_ (pool w') = taskQueue_ (pool w).
Proof.
  intros Hd Hc. exists (World_retired threadId w).
  split; [by apply threadFunc_retire|]. by destruct w as [[] ? ?].
Qed.

(** ** A submission that gives up *)

(** The future that the failure branch of [submitTask] returns refers to a
    packaged task that is destroyed without having been called: its shared
    state holds [broken_promise], not a value. *)
Lemma submitTask_fail_spec (task : ptr) pt w :
  heap w !! task = Some pt ->
  exists w',
    submitTask_fail RtType_default task w
      = Some (SubmitReturn (Future (length (heap w))), w') /\
    pool w' = pool w /\
    future_state (Future (length (heap w))) w' = Some BrokenPromise.
Proof.
  intros Hpt. pose proof (lookup_lt_Some _ _ _ Hpt) as Hlt.
  unfold future_state.
  destruct w as [p h tr]. unfold submitTask_fail. unfold_prims. simpl in *.
  rewrite lookup_app_r, Nat.sub_diag by lia. simpl.
  rewrite list_lookup_insert_ne by lia.
  rewrite lookup_app_l, Hpt by lia.
  destruct (shared pt); eexists; (split; [reflexivity|]); simpl; (split; [done|]).
  all: rewrite ?list_lookup_insert_ne by lia.
  all: rewrite list_lookup_insert_eq by (rewrite ?length_insert, length_app; simpl; lia).
  all: done.
Qed.

(** The growth check compares as [unsigned]: with a negative idle counter
    no worker is created, whatever the number of pending tasks. *)
Lemma submitTask_no_growth_with_negative_idle task result expired threadId w :
  Z.of_nat (length (taskQueue_ (pool w))) < taskQueueMaxSize_ (pool w) ->
  idleThreadSize_ (pool w) = -1 ->
  0 <= taskSize_ (pool w) < 2 ^ 32 - 2 ->
  exists w',
    submitTask_locked RtType_default task result expired threadId w
      = Some (SubmitReturn result, w') /\
    trace w' = trace w ++ enqueue_actions task /\
    threadsMap_ (pool w') = threadsMap_ (pool w).
Proof.
  intros Hroom Hidle Hts. apply Z.ltb_lt in Hroom.
  destruct w as [[tm its mts mft idle q ts qmax mode running] h tr].
  unfold_members; unfold_prims; simpl in *. subst idle. rewrite Hroom. simpl.
  assert ((Int.to_uint (-1) <? Int.to_uint (ts + 1)) = false) as ->.
  { apply Z.ltb_ge. rewrite (to_uint_small (ts + 1)) by lia.
    unfold Int.to_uint. change ((-1) mod 2 ^ 32) with (2 ^ 32 - 1). lia. }
  rewrite andb_false_r. simpl. eexists. split; [reflexivity|].
  simpl. rewrite <- !app_assoc. done.
Qed.

End Properties.

(** * Runs of the scenarios *)

(** The two submissions of the README resolve to 3 and 6. *)
Example readme_futures_resolve :
  exists w,
    scenario_readme World_init
      = Some ((Future 0%nat, Future 1%nat,
               WorkerExecute (InvokePackaged 0), WorkerExecute (InvokePackaged 1)), w) /\
    future_state (Future 0%nat) w = Some (Value 3) /\
    future_state (Future 1%nat) w = Some (Value 6).
Proof. eexists. split; [vm_compute; reflexivity|]. split; reflexivity. Qed.

(** C1. A submission to a queue that stays full: the call blocks, and when
    the second has passed it returns without having queued or counted the
    task, with [std::cerr] written to.  The future it returns refers to a
    packaged task that was never called and is destroyed on return: its
    shared state holds [broken_promise], not the value [int()]. *)
Theorem submit_timeout_returns_broken_future :
  exists w,
    scenario_submit_timeout World_init
      = Some ((SubmitBlocked, SubmitReturn (Future 1%nat)), w) /\
    taskQueue_ (pool w) = [] /\
    taskSize_ (pool w) = 0 /\
    emplaced (trace w) = [] /\
    future_state (Future 1%nat) w = Some BrokenPromise /\
    future_state (Future 1%nat) w <> Some (Value 0).
Proof.
  eexists. split; [vm_compute; reflexivity|].
  repeat split; try reflexivity. discriminate.
Qed.

(** C7. A worker of a cached pool is inside [wait_for] when a task is
    submitted; the wait reports a timeout and the worker, idle for the
    configured second and above [initThreadSize_], returns through the
    retire branch.  The task is still queued, no worker is left, and its
    future is not ready. *)
Theorem worker_retires_while_task_queued :
  exists w,
    scenario_retire_race World_init
      = Some ((SubmitReturn (Future 1%nat), WorkerReturn ExitIdleTimeout), w) /\
    isPoolRunning_ (pool w) = true /\
    taskQueue_ (pool w) = [InvokePackaged 1] /\
    threadsMap_ (pool w) = ∅ /\
    idleThreadSize_ (pool w) = -1 /\
    future_state (Future 1%nat) w = Some NotReady.
Proof.
  eexists. split; [vm_compute; reflexivity|]. repeat split; reflexivity.
Qed.

(** C5. The worker of a cached pool with the idle timeout of 60 seconds
    has gone to wait after it finished a task at clock reading 10 s.  Its
    wait of one second times out while the clock, set back meanwhile, reads
    9 s: the idle time that the thread function computes is -1 second,
    which is below the timeout, and still the worker retires, because the
    comparison with the [size_t] timeout converts the negative count to
    [size_t].  The number of workers was above [initThreadSize_], so the
    map keeps its floor. *)
Theorem worker_retires_after_clock_set_back :
  exists w,
    scenario_clock_set_back World_init
      = Some ((SubmitReturn (Future 0%nat), WorkerWaitFor, WorkerReturn ExitIdleTimeout), w) /\
    poolMode_ (pool w) = MODE_CACHED /\
    maxThreadFreeTime_ (pool w) = 60 /\
    Chrono.seconds (9 * Chrono.ticks_per_second - 10 * Chrono.ticks_per_second) = -1 /\
    ~ retire_condition
        (Chrono.seconds (9 * Chrono.ticks_per_second - 10 * Chrono.ticks_per_second))
        (pool (world_after scenario_patient_worker)) /\
    threadsMap_ (pool (world_after scenario_patient_worker)) = {[0 := mkThread 0]} /\
    threadsMap_ (pool w) = ∅ /\
    initThreadSize_ (pool w) = 0.
Proof.
  eexists. split; [vm_compute; reflexivity|].
  split; [reflexivity|]. split; [reflexivity|]. split; [reflexivity|].
  split; [|split; [vm_compute; reflexivity|split; reflexivity]].
  intros [Hc _]. vm_compute in Hc. by apply Hc.
Qed.

(** C3, as stated, fails: two tasks are submitted to a pool that has not
    been started, and the pool is then configured with a queue of capacity
    one.  Every step is an operation of the pool, each submission found the
    queue below its bound, and in the end two tasks are queued under a
    bound of one. *)
Lemma queue_exceeds_bound_set_below_size :
  queue_bounded (World_init (RtType := Z)) /\
  rtc (step 0) World_init (world_after scenario_lowered_bound) /\
  length (taskQueue_ (pool (world_after scenario_lowered_bound))) = 2%nat /\
  taskQueueMaxSize_ (pool (world_after scenario_lowered_bound)) = 1 /\
  ~ queue_bounded (world_after scenario_lowered_bound).
Proof.
  split; [vm_compute; discriminate|]. split; [|split; [|split]].
  - eapply rtc_l;
      [exists (OpSubmitPackage (fun _ => add1 1 2)); vm_compute; reflexivity|].
    eapply rtc_l;
      [exists (OpSubmitLocked 0 (Future 0) false 0); vm_compute; reflexivity|].
    eapply rtc_l;
      [exists (OpSubmitPackage (fun _ => add2 1 2 3)); vm_compute; reflexivity|].
    eapply rtc_l;
      [exists (OpSubmitLocked 1 (Future 1) false 0); vm_compute; reflexivity|].
    eapply rtc_l; [exists (OpSetMode MODE_CACHED); vm_compute; reflexivity|].
    eapply rtc_l; [|apply rtc_refl].
    exists (OpSetTaskQueueMaxSize 1). vm_compute. reflexivity.
  - vm_compute. reflexivity.
  - vm_compute. reflexivity.
  - intros Hb. vm_compute in Hb. by apply Hb.
Qed.

(** The worker of that scenario had found the queue empty before it went
    to wait. *)
Example idle_worker_waits :
  exists w,
    scenario_idle_worker World_init
      = Some ((SubmitReturn (Future 0%nat), WorkerExecute (InvokePackaged 0),
               WorkerWaitFor), w) /\
    taskQueue_ (pool w) = [] /\
    future_state (Future 0%nat) w = Some (Value 3).
Proof.
  eexists. split; [vm_compute; reflexivity|]. repeat split; reflexivity.
Qed.

(** C4, as stated, fails: in the world of [scenario_full_queue] the mode is
    cached, one task is pending, no worker is idle and there are fewer
    workers than [maxThreadSize_], yet the call of [submitTask] that gives
    up on the full queue returns without creating or starting a worker. *)
Lemma submit_timeout_creates_no_worker :
  growth_condition (pool (world_after scenario_full_queue)) /\
  growth_condition (pool_enqueued 1 (pool (world_after scenario_full_queue))) /\
  0 <= idleThreadSize_ (pool (world_after scenario_full_queue)) /\
  exists w',
    scenario_blocked_call (world_after scenario_full_queue)
      = Some ((SubmitBlocked, SubmitReturn (Future 2%nat)), w') /\
    trace w' = trace (world_after scenario_full_queue) ++ [Cerr MsgTaskQueueFull] /\
    started (trace w') = [] /\
    threadsMap_ (pool w') = threadsMap_ (pool (world_after scenario_full_queue)).
Proof.
  split; [|split; [|split]].
  - vm_compute. auto.
  - vm_compute. auto.
  - vm_compute. discriminate.
  - eexists. split; [vm_compute; reflexivity|]. repeat split; reflexivity.
Qed.

(** * Instances of the theorems *)

(** Closed facts about the scenarios hold by evaluation. *)
Ltac evaluate :=
  vm_compute; repeat split; first [reflexivity | discriminate].

(** The bound of the queue on a run: a pool is started and one task is
    submitted. *)
Lemma taskQueue_never_exceeds_max_witness :
  queue_bounded (World_init (RtType := Z)) /\
  rtc (step_configured 0) World_init (world_after scenario_one_task) /\
  queue_bounded (world_after scenario_one_task).
Proof.
  assert (queue_bounded (World_init (RtType := Z))) as Hb
    by (vm_compute; discriminate).
  assert (rtc (step_configured 0) World_init (world_after scenario_one_task)) as Hs.
  { eapply rtc_l.
    { exists (OpStart 2 [0; 1]). split; [vm_compute; reflexivity|]. simpl. tauto. }
    eapply rtc_l.
    { exists (OpSubmitPackage (fun _ => add1 1 2)).
      split; [vm_compute; reflexivity|]. simpl. tauto. }
    eapply rtc_l; [|apply rtc_refl].
    exists (OpSubmitLocked 0 (Future 0) false 2).
    split; [vm_compute; reflexivity|]. simpl. tauto. }
  split; [exact Hb|]. split; [exact Hs|].
  exact (proj1 (taskQueue_never_exceeds_max 0 _ _ Hb Hs)).
Defined.

(** The two tasks of the README are queued in the order of their
    submission: the worker that takes the lock next takes the first and,
    the second being still queued, notifies [queueNotEmpty_]. *)
Lemma worker_dequeues_in_fifo_order_witness :
  fifo_history (World_init (RtType := Z)) /\
  rtc (step 0) World_init (world_after scenario_two_tasks) /\
  taskQueue_ (pool (world_after scenario_two_tasks))
    = [InvokePackaged 0; InvokePackaged 1] /\
  emplaced (trace (world_after scenario_two_tasks))
    = [InvokePackaged 0; InvokePackaged 1] /\
  idleThreadSize_ (pool (world_after scenario_two_tasks)) = 2 /\
  taskSize_ (pool (world_after scenario_two_tasks)) = 2 /\
  exists w'',
    threadFunc_while 0 (world_after scenario_two_tasks)
      = Some (WorkerExecute (InvokePackaged 0), w'') /\
    trace w'' = trace (world_after scenario_two_tasks) ++
      [DecIdleThreadSize; QueueFront (InvokePackaged 0); QueuePop; DecTaskSize;
       NotifyAll queueNotFull_; NotifyAll queueNotEmpty_] /\
    idleThreadSize_ (pool w'') = 1 /\
    taskQueue_ (pool w'') = [InvokePackaged 1] /\
    taskSize_ (pool w'') = 1 /\
    fronted (trace w'') = [InvokePackaged 0].
Proof.
  assert (fifo_history (World_init (RtType := Z))) as Hh by reflexivity.
  assert (rtc (step 0) World_init (world_after scenario_two_tasks)) as Hs.
  { eapply rtc_l; [exists (OpStart 2 [0; 1]); vm_compute; reflexivity|].
    eapply rtc_l;
      [exists (OpSubmitPackage (fun _ => add1 1 2)); vm_compute; reflexivity|].
    eapply rtc_l;
      [exists (OpSubmitLocked 0 (Future 0) false 2); vm_compute; reflexivity|].
    eapply rtc_l;
      [exists (OpSubmitPackage (fun _ => add2 1 2 3)); vm_compute; reflexivity|].
    eapply rtc_l; [|apply rtc_refl].
    exists (OpSubmitLocked 1 (Future 1) false 3). vm_compute. reflexivity. }
  assert (taskQueue_ (pool (world_after scenario_two_tasks))
            = [InvokePackaged 0; InvokePackaged 1])
    as Hq by (vm_compute; reflexivity).
  split; [exact Hh|]. split; [exact Hs|]. split; [exact Hq|].
  split; [vm_compute; reflexivity|]. split; [vm_compute; reflexivity|].
  split; [vm_compute; reflexivity|].
  destruct (worker_dequeues_in_fifo_order 0 _ _ 0 _ _ Hh Hs Hq)
    as (w'' & Hrun & -> & _).
  exists (World_taken (InvokePackaged 0) [InvokePackaged 1]
            (world_after scenario_two_tasks)).
  split; [exact Hrun|].
  split; [vm_compute; reflexivity|]. split; [vm_compute; reflexivity|].
  split; [vm_compute; reflexivity|]. split; vm_compute; reflexivity.
Defined.

(** [add1] submitted with the arguments 1 and 2 to a started pool: the
    future resolves to 3. *)
Lemma submitted_task_resolves_future_witness :
  rtc (step_without 0 (length (heap (world_after scenario_fixed_pool))))
    (World_packaged (fun _ => add1 1 2) (world_after scenario_fixed_pool))
    (World_packaged (fun _ => add1 1 2) (world_after scenario_fixed_pool)) /\
  Z.of_nat (length (taskQueue_ (pool
      (World_packaged (fun _ => add1 1 2) (world_after scenario_fixed_pool)))))
    < taskQueueMaxSize_ (pool
      (World_packaged (fun _ => add1 1 2) (world_after scenario_fixed_pool))) /\
  exists w2,
    submitTask_locked 0 0%nat (Future 0%nat) false 2
        (World_packaged (fun _ => add1 1 2) (world_after scenario_fixed_pool))
      = Some (SubmitReturn (Future 0%nat), w2) /\
    forall w3,
      rtc (step_without 0 0%nat) w2 w3 ->
      exists w4,
        threadFunc_execute (InvokePackaged 0) w3 = Some (tt, w4) /\
        future_state (Future 0%nat) w4 = Some (Value 3).
Proof.
  split; [apply rtc_refl|]. split; [vm_compute; reflexivity|].
  destruct (submitted_task_resolves_future 0 (fun _ => add1 1 2) false 2
              (world_after scenario_fixed_pool)
              (World_packaged (fun _ => add1 1 2) (world_after scenario_fixed_pool)))
    as (_ & w2 & Hsub & _ & _ & Hrun).
  - apply rtc_refl.
  - vm_compute. reflexivity.
  - exists w2. split; [exact Hsub|exact Hrun].
Defined.

(** The first submission to a cached pool that was started empty. *)
Lemma submitTask_grows_by_one_below_max_witness :
  Z.of_nat (length (taskQueue_ (pool (world_after scenario_cached_pool))))
    < taskQueueMaxSize_ (pool (world_after scenario_cached_pool)) /\
  0 <= idleThreadSize_ (pool (world_after scenario_cached_pool)) < 2 ^ 31 /\
  exists w' acts,
    submitTask_locked 0 0%nat (Future 0%nat) false 0 (world_after scenario_cached_pool)
      = Some (SubmitReturn (Future 0%nat), w') /\
    trace w' = trace (world_after scenario_cached_pool) ++ enqueue_actions 0 ++ acts /\
    (started acts <> [] <->
     growth_condition (pool_enqueued 0 (pool (world_after scenario_cached_pool)))).
Proof.
  split; [vm_compute; reflexivity|]. split; [evaluate|].
  destruct (submitTask_grows_by_one_below_max 0 0%nat (Future 0%nat) false 0
              (world_after scenario_cached_pool))
    as (w' & acts & Hsub & Htr & Hiff & _).
  - vm_compute. reflexivity.
  - evaluate.
  - exists w', acts. split; [exact Hsub|]. split; [exact Htr|exact Hiff].
Defined.

(** The worker of [scenario_idle_worker], whose wait times out after one
    second. *)
Lemma worker_retires_only_above_initThreadSize_witness :
  0 <= 1 * Chrono.ticks_per_second - 0 < 2 ^ 63 /\
  exists pc w',
    threadFunc_wait_for_returns 0 0 timeout (1 * Chrono.ticks_per_second)
        (world_after scenario_idle_worker)
      = Some (pc, w') /\
    (pc = WorkerReturn ExitIdleTimeout <->
     timeout = timeout /\
     retire_condition (Chrono.seconds (1 * Chrono.ticks_per_second - 0))
       (pool (world_after scenario_idle_worker))).
Proof.
  split; [evaluate|].
  destruct (worker_retires_only_above_initThreadSize 0 0 timeout
              (1 * Chrono.ticks_per_second) (world_after scenario_idle_worker))
    as (pc & w' & Hret & Hiff & _).
  - evaluate.
  - exists pc, w'. split; [exact Hret|exact Hiff].
Defined.

(** The same worker retires: the idle counter goes from 1 to -1. *)
Lemma retiring_worker_decrements_idle_twice_witness :
  0 <= 1 * Chrono.ticks_per_second - 0 < 2 ^ 63 /\
  retire_condition (Chrono.seconds (1 * Chrono.ticks_per_second - 0))
    (pool (world_after scenario_idle_worker)) /\
  exists w',
    threadFunc_wait_for_returns 0 0 timeout (1 * Chrono.ticks_per_second)
        (world_after scenario_idle_worker)
      = Some (WorkerReturn ExitIdleTimeout, w') /\
    idleThreadSize_ (pool (world_after scenario_idle_worker)) = 1 /\
    idleThreadSize_ (pool w') = -1.
Proof.
  assert (0 <= 1 * Chrono.ticks_per_second - 0 < 2 ^ 63) as Hd
    by (evaluate).
  assert (retire_condition (Chrono.seconds (1 * Chrono.ticks_per_second - 0))
            (pool (world_after scenario_idle_worker))) as Hc
    by (evaluate).
  split; [exact Hd|]. split; [exact Hc|].
  destruct (retiring_worker_decrements_idle_twice 0 0 (1 * Chrono.ticks_per_second)
              (world_after scenario_idle_worker) Hd Hc)
    as (w' & Hret & _ & Hidle & _).
  exists w'. split; [exact Hret|]. split; [reflexivity|exact Hidle].
Defined.

(** The four setters called on a started pool. *)
Lemma setters_leave_running_pool_unchanged_witness :
  isPoolRunning_ (pool (world_after scenario_fixed_pool)) = true /\
  setMode MODE_CACHED (world_after scenario_fixed_pool)
    = Some (tt, world_after scenario_fixed_pool) /\
  setMaxThreadSize 4 (world_after scenario_fixed_pool)
    = Some (tt, world_after scenario_fixed_pool) /\
  setMaxThreadFreeTime_ 1 (world_after scenario_fixed_pool)
    = Some (tt, world_after scenario_fixed_pool) /\
  setTaskQueueMaxSize 16 (world_after scenario_fixed_pool)
    = Some (tt, world_after scenario_fixed_pool).
Proof.
  split; [reflexivity|].
  apply (setters_leave_running_pool_unchanged MODE_CACHED 4 1 16
           (world_after scenario_fixed_pool)).
  reflexivity.
Defined.

(** The two setters called on a freshly constructed pool. *)
Lemma stopped_setters_need_cached_mode_witness :
  isPoolRunning_ (pool (World_init (RtType := Z))) = false /\
  setTaskQueueMaxSize 16 (World_init (RtType := Z)) = Some (tt, World_init) /\
  setMaxThreadFreeTime_ 1 (World_init (RtType := Z)) = Some (tt, World_init).
Proof.
  split; [reflexivity|].
  apply (proj1 (stopped_setters_need_cached_mode 4 1 16 (World_init (RtType := Z))
                  eq_refl)).
  reflexivity.
Defined.

(** * Further properties *)

(** ** Machine integers, continued *)

Lemma to_int_add_idemp a b : Int.to_int (Int.to_int a + b) = Int.to_int (a + b).
Proof.
  unfold Int.to_int.
  replace ((a + 2 ^ 31) mod 2 ^ 32 - 2 ^ 31 + b + 2 ^ 31)
    with ((a + 2 ^ 31) mod 2 ^ 32 + b) by lia.
  rewrite Zplus_mod_idemp_l. f_equal. f_equal. lia.
Qed.

Lemma to_uint_add_idemp a b : Int.to_uint (Int.to_uint a + b) = Int.to_uint (a + b).
Proof. unfold Int.to_uint. apply Zplus_mod_idemp_l. Qed.

Lemma to_uint_sub_idemp a b : Int.to_uint (Int.to_uint a - b) = Int.to_uint (a - b).
Proof. unfold Int.to_uint. apply Zminus_mod_idemp_l. Qed.

Section FurtherProperties.

Context {RtType : Type} (RtType_default : RtType).

Implicit Types (w : @World RtType) (p : ThreadPool) (op : @Op RtType).

Ltac unfold_prims :=
  cbv [dec_idleThreadSize_ inc_idleThreadSize_ dec_taskSize_ inc_taskSize_
       taskQueue_size taskQueue_emplace taskQueue_front taskQueue_pop
       taskQueue_empty notify_all threadsMap_size threadsMap_emplace
       threadsMap_erase threadsMap_start cout cerr isRunningState
       make_shared_packaged_task get_future packaged_task_call
       packaged_task_destroy Task_call
       bind ret gets modify emit undefined get_heap put_heap when run] in *.

Ltac unfold_members :=
  cbv [setMode setMaxThreadSize setMaxThreadFreeTime_ setTaskQueueMaxSize
       submitTask_package submitTask_locked submitTask_enqueue submitTask_fail
       threadFunc_lock threadFunc_wait_for_returns threadFunc_wait_returns
       threadFunc_while threadFunc_take threadFunc_execute threadFunc_done
       threadFunc_proceed dtor_stop dtor_lock dtor_wait_test] in *.

(** ** [start] *)

(** The first loop of [start] always goes through; a key that is neither
    old nor among the new ids is still missing afterwards. *)
Lemma start_create_total ids w :
  exists m,
    start_create ids w
      = Some (tt, mkWorld (set_threadsMap_ m (pool w)) (heap w)
                    (trace w ++ create_actions ids)) /\
    (forall k, k ∉ ids -> m !! k = threadsMap_ (pool w) !! k) /\
    (forall k, threadsMap_ (pool w) !! k = Some (mkThread k) -> m !! k = Some (mkThread k)) /\
    (forall k, k ∈ ids -> threadsMap_ (pool w) !! k = None -> m !! k = Some (mkThread k)) /\
    (NoDup ids -> (forall k, k ∈ ids -> threadsMap_ (pool w) !! k = None) ->
     m = map_created ids (threadsMap_ (pool w))).
Proof.
  revert w. induction ids as [|id ids IH]; intros w.
  - exists (threadsMap_ (pool w)). simpl. unfold ret, create_actions. simpl.
    rewrite app_nil_r. destruct w as [[] h tr]; simpl. repeat split; try done.
    intros k Hk. by apply elem_of_nil in Hk.
  - simpl. unfold bind at 1.
    destruct w as [[tm its mts mft idle q ts qmax mode running] h tr].
    unfold threadsMap_emplace. unfold_prims. simpl.
    destruct (tm !! id) as [t|] eqn:E; simpl.
    + (* the key is there: nothing is inserted *)
      match goal with |- context [start_create ids ?w0] =>
        destruct (IH w0) as (m & Hrun & Hout & Hold & Hnew & Hmap) end.
      simpl in *. exists m. rewrite Hrun. simpl.
      unfold create_actions. simpl. rewrite <- app_assoc. simpl.
      split; [done|]. split; [|split; [|split]].
      * intros k Hk. apply Hout. set_solver.
      * done.
      * intros k Hk Hnone. apply elem_of_cons in Hk as [->|Hk]; [congruence|].
        by apply Hnew.
      * intros _ Hfresh. specialize (Hfresh id). rewrite E in Hfresh.
        discriminate Hfresh. set_solver.
    + match goal with |- context [start_create ids ?w0] =>
        destruct (IH w0) as (m & Hrun & Hout & Hold & Hnew & Hmap) end.
      simpl in *. exists m. rewrite Hrun. simpl.
      unfold create_actions. simpl. rewrite <- app_assoc. simpl.
      split; [done|]. split; [|split; [|split]].
      * intros k Hk. rewrite Hout by set_solver.
        apply lookup_insert_ne. set_solver.
      * intros k Hk. apply Hold. rewrite lookup_insert_ne; [done|]. congruence.
      * intros k Hk Hnone. apply elem_of_cons in Hk as [->|Hk].
        -- destruct (decide (id ∈ ids)) as [Hin|Hin].
           ++ apply Hold. by rewrite lookup_insert_eq.
           ++ rewrite Hout by done. by rewrite lookup_insert_eq.
        -- destruct (decide (k = id)) as [->|Hne].
           ++ apply Hold. by rewrite lookup_insert_eq.
           ++ apply Hnew; [done|]. by rewrite lookup_insert_ne.
      * intros Hnd Hfresh. apply NoDup_cons in Hnd as [Hid Hnd].
        simpl. apply Hmap; [done|]. intros k Hk.
        rewrite lookup_insert_ne by set_solver. apply Hfresh. set_solver.
Qed.

(** The second loop of [start] reaches every handle through its key; it
    goes through when the keys [i], ..., [i + n - 1] are all there. *)
Lemma start_launch_spec n i w :
  (forall k, i <= k < i + Z.of_nat n ->
     threadsMap_ (pool w) !! k = Some (mkThread k)) ->
  - 2 ^ 31 <= idleThreadSize_ (pool w) < 2 ^ 31 ->
  start_launch n i w
    = Some (tt, mkWorld
                  (set_idleThreadSize_
                     (Int.to_int (idleThreadSize_ (pool w) + Z.of_nat n)) (pool w))
                  (heap w) (trace w ++ launch_actions i n)).
Proof.
  revert i w. induction n as [|n IH]; intros i w Hkeys Hidle.
  - simpl. unfold ret, launch_actions. simpl.
    rewrite app_nil_r, Z.add_0_r, to_int_small by done.
    by destruct w as [[] h tr].
  - assert (threadsMap_ (pool w) !! i = Some (mkThread i)) as Hi
      by (apply Hkeys; lia).
    assert (forall k, i + 1 <= k < i + 1 + Z.of_nat n ->
              threadsMap_ (pool w) !! k = Some (mkThread k)) as Hrest
      by (intros k Hk; apply Hkeys; lia).
    clear Hkeys.
    change (start_launch (S n) i w)
      with ((threadsMap_start i;;; inc_idleThreadSize_;;; start_launch n (i + 1)) w).
    destruct w as [[tm its mts mft idle q ts qmax mode running] h tr].
    unfold bind at 1. unfold threadsMap_start. unfold_prims. simpl in Hi, Hrest |- *.
    rewrite Hi. simpl.
    rewrite IH; simpl; [|done|apply to_int_range].
    rewrite to_int_add_idemp. unfold launch_actions.
    rewrite Nat2Z.inj_succ, (seqZ_cons i) by lia. simpl.
    rewrite <- !app_assoc. simpl.
    replace (Z.pred (Z.succ (Z.of_nat n))) with (Z.of_nat n) by lia.
    replace (Z.succ i) with (i + 1) by lia.
    replace (idle + 1 + Z.of_nat n) with (idle + Z.succ (Z.of_nat n)) by lia.
    done.
Qed.

(** Where a key below the count is missing, [operator[]] yields a null
    pointer and the call through it is undefined. *)
Lemma start_launch_undefined n i w k :
  i <= k < i + Z.of_nat n ->
  threadsMap_ (pool w) !! k = None ->
  start_launch n i w = None.
Proof.
  revert i w. induction n as [|n IH]; intros i w Hk Hnone; [lia|].
  simpl. unfold bind at 1.
  destruct w as [[tm its mts mft idle q ts qmax mode running] h tr].
  unfold threadsMap_start. unfold_prims. simpl in *.
  destruct (tm !! i) as [t|] eqn:E; [|done]. simpl.
  apply IH; simpl; [|done].
  destruct (decide (k = i)) as [->|]; [congruence|lia].
Qed.

Lemma size_map_created ids (m : gmap Z Thread) :
  NoDup ids -> (forall k, k ∈ ids -> m !! k = None) ->
  size (map_created ids m) = (size m + length ids)%nat.
Proof.
  revert m. induction ids as [|id ids IH]; intros m Hnd Hfresh; simpl; [lia|].
  apply NoDup_cons in Hnd as [Hid Hnd].
  rewrite IH; [|done|].
  - rewrite map_size_insert_None; [lia|]. apply Hfresh. set_solver.
  - intros k Hk. rewrite lookup_insert_ne by set_solver. apply Hfresh. set_solver.
Qed.

Lemma started_launch_actions i n :
  started (launch_actions i n) = seqZ i (Z.of_nat n).
Proof.
  unfold launch_actions.
  induction (seqZ i (Z.of_nat n)) as [|k l IH]; simpl; [done|]. by rewrite IH.
Qed.

(** X1. [start(n)] on a pool none of whose workers has one of the new ids,
    where every key from 0 to n - 1 is a new id or an old worker: the pool
    runs, [initThreadSize_] is n, the n new handles are in the map, the n
    handles under the keys 0, ..., n - 1 are started in this order, and the
    idle counter has grown by n.  The queue, its bound and the packaged
    tasks are as before. *)
Theorem start_launches_keys_below_count n ids w :
  Z.of_nat (length ids) = n ->
  n < 2 ^ 31 ->
  NoDup ids ->
  (forall k, k ∈ ids -> threadsMap_ (pool w) !! k = None) ->
  (forall k, 0 <= k < n ->
     k ∈ ids \/ threadsMap_ (pool w) !! k = Some (mkThread k)) ->
  - 2 ^ 31 <= idleThreadSize_ (pool w) < 2 ^ 31 ->
  exists w',
    start n ids w = Some (tt, w') /\
    isPoolRunning_ (pool w') = true /\
    initThreadSize_ (pool w') = n /\
    threadsMap_ (pool w') = map_created ids (threadsMap_ (pool w)) /\
    size (threadsMap_ (pool w')) = (size (threadsMap_ (pool w)) + length ids)%nat /\
    idleThreadSize_ (pool w') = Int.to_int (idleThreadSize_ (pool w) + n) /\
    trace w' = trace w ++ create_actions ids ++ launch_actions 0 (length ids) /\
    started (launch_actions 0 (length ids)) = seqZ 0 n /\
    taskQueue_ (pool w') = taskQueue_ (pool w) /\
    taskQueueMaxSize_ (pool w') = taskQueueMaxSize_ (pool w) /\
    heap w' = heap w.
Proof.
  intros Hlen Hint Hnd Hfresh Hkeys Hidle.
  assert (0 <= n) as Hn by lia.
  unfold start. unfold bind at 1. unfold modify at 1. simpl.
  unfold bind at 1. unfold modify at 1. simpl.
  rewrite decide_True by done.
  unfold bind at 1.
  match goal with |- context [start_create ids ?w0] =>
    destruct (start_create_total ids w0) as (m & Hrun & Hout & Hold & Hnew & Hmap) end.
  rewrite Hrun. simpl in *.
  assert (m = map_created ids (threadsMap_ (pool w))) as ->.
  { apply Hmap; [done|]. by destruct w as [[] ? ?]. }
  rewrite start_launch_spec; simpl.
  - eexists. split; [reflexivity|]. simpl.
    rewrite size_map_created by done.
    destruct w as [[tm its mts mft idle q ts qmax mode running] h tr]; simpl in *.
    rewrite to_size_t_small by lia.
    rewrite <- app_assoc, started_launch_actions, Hlen.
    repeat split; done.
  - intros k Hk.
    destruct w as [[tm its mts mft idle q ts qmax mode running] h tr]; simpl in *.
    destruct (Hkeys k) as [Hin|Hin]; [lia| |].
    + apply Hnew; [done|]. by apply Hfresh.
    + by apply Hold.
  - by destruct w as [[] ? ?].
Qed.

(** X2. When some key below the count is neither a new id nor an old
    worker, [start] is undefined: the second loop calls through the null
    pointer that [operator[]] inserts. *)
Theorem start_undefined_without_key n ids w k :
  Z.of_nat (length ids) = n ->
  0 <= k < n ->
  k ∉ ids ->
  threadsMap_ (pool w) !! k = None ->
  start n ids w = None.
Proof.
  intros Hlen Hk Hnew Hold.
  unfold start. unfold bind at 1. unfold modify at 1. simpl.
  unfold bind at 1. unfold modify at 1. simpl.
  rewrite decide_True by (split; [lia|done]).
  unfold bind at 1.
  match goal with |- context [start_create ids ?w0] =>
    destruct (start_create_total ids w0) as (m & Hrun & Hout & _) end.
  rewrite Hrun. apply (start_launch_undefined _ _ _ k); simpl; [lia|].
  rewrite Hout by done. by destruct w as [[] ? ?].
Qed.

(** What [start] changes: the running flag, [initThreadSize_], the worker
    map and the idle counter, and nothing else of the pool. *)
Lemma start_launch_pool n i w w' :
  start_launch n i w = Some (tt, w') ->
  exists idle', pool w' = set_idleThreadSize_ idle' (pool w) /\ heap w' = heap w.
Proof.
  revert i w. induction n as [|n IH]; intros i w H; simpl in H.
  - unfold ret in H. simplify_eq. exists (idleThreadSize_ (pool w')).
    by destruct w' as [[] ? ?].
  - unfold bind at 1 in H.
    destruct (threadsMap_start i w) as [[[] w1]|] eqn:E1; [|done].
    unfold bind at 1 in H.
    destruct (inc_idleThreadSize_ w1) as [[[] w2]|] eqn:E2; [|done].
    apply IH in H as (idle' & Hp & Hh). exists idle'.
    destruct w as [[tm its mts mft idle q ts qmax pm running] h tr].
    unfold threadsMap_start in E1. unfold_prims. simpl in *.
    destruct (tm !! i); simplify_eq. simpl in *. by rewrite Hp, Hh.
Qed.

Lemma start_pool n ids w w' :
  start n ids w = Some (tt, w') ->
  exists m idle',
    pool w' = set_idleThreadSize_ idle'
                (set_threadsMap_ m
                  (set_initThreadSize_ (Int.to_size_t n)
                    (set_isPoolRunning_ true (pool w)))) /\
    heap w' = heap w.
Proof.
  unfold start. intros H.
  unfold bind at 1 in H. simpl in H. unfold bind at 1 in H. simpl in H.
  case_decide; [|done].
  unfold bind at 1 in H.
  match type of H with context [start_create ids ?w0] =>
    destruct (start_create_total ids w0) as (m & Hrun & _) end.
  rewrite Hrun in H. apply start_launch_pool in H as (idle' & Hp & Hh).
  exists m, idle'. simpl in *. rewrite Hp, Hh.
  by destruct w as [[] ? ?].
Qed.

(** ** The task counter *)

Lemma exec_counter_effect op w w' :
  exec RtType_default op w = Some w' -> CounterEffect (pool w) (pool w').
Proof.
  intros H. destruct op; simpl in H.
  5: { unfold run in H.
       destruct (start initThreadSize ids w) as [[[] w1]|] eqn:E; simplify_eq/=.
       apply start_pool in E as (m & idle' & -> & _).
       apply CounterKept; by destruct w as [[] ? ?]. }
  all: destruct w as [[tm its mts mft idle q ts qmax pm running] h tr].
  all: unfold_members; unfold_prims; simpl in *.
  all: simplify_eq/=; repeat (case_match; simplify_eq/=).
  all: try (by apply CounterKept).
  all: try (by eapply CounterUp).
  all: try (by eapply CounterDown).
Qed.

Lemma step_counter_tracks_queue w w' :
  counter_tracks_queue w -> step RtType_default w w' -> counter_tracks_queue w'.
Proof.
  unfold counter_tracks_queue. intros Hc (op & Hop).
  apply exec_counter_effect in Hop as [Hq Hts|t Hq Hts|t Hq Hts].
  - by rewrite Hq, Hts.
  - rewrite Hq, Hts, Hc, length_app, to_uint_add_idemp. simpl. f_equal. lia.
  - rewrite Hts, Hc, Hq. simpl length. rewrite to_uint_sub_idemp. f_equal. lia.
Qed.

(** X3. [taskSize_] counts the queue: from a world in which the counter is
    the size of the queue (as an [unsigned]), such as a freshly constructed
    pool, every interleaving of the operations of the pool leads to a world
    in which it is. *)
Theorem taskSize_tracks_queue w w' :
  counter_tracks_queue w ->
  rtc (step RtType_default) w w' ->
  counter_tracks_queue w'.
Proof. intros Hc Hs. induction Hs; eauto using step_counter_tracks_queue. Qed.

(** ** The number of workers *)

Lemma exec_map_effect op w w' :
  exec RtType_default op w = Some w' ->
  ~ is_start op ->
  MapEffect (pool w) (pool w') /\
  initThreadSize_ (pool w') = initThreadSize_ (pool w) /\
  (isPoolRunning_ (pool w') = true -> isPoolRunning_ (pool w) = true) /\
  (maxThreadSize_ (pool w') = maxThreadSize_ (pool w) \/ assigns_maxThreadSize op w) /\
  (isPoolRunning_ (pool w) = true -> poolMode_ (pool w') = poolMode_ (pool w)).
Proof.
  intros H Hns. destruct op; simpl in H, Hns; [| | | |done|..].
  all: destruct w as [[tm its mts mft idle q ts qmax pm running] h tr].
  all: unfold_members; unfold_prims; simpl in *.
  all: simplify_eq/=; repeat (case_match; simplify_eq/=).
  all: repeat match goal with
         | H : _ && _ = true |- _ => apply andb_true_iff in H as [? ?]
         | H : (_ <? _) = true |- _ => apply Z.ltb_lt in H
         | H : negb _ = true |- _ => apply negb_true_iff in H
         | H : bool_decide _ = true |- _ => apply bool_decide_eq_true in H
         end.
  all: split; [|split; [done|split; [by intros|split; [by auto|by intros]]]].
  all: try (by apply MapKept).
  all: try (by eapply MapGrown).
  all: try (by eapply MapRetired).
  all: try (by eapply MapLeft).
Qed.

Lemma size_delete_le (threadId : Z) (m : gmap Z Thread) :
  (size (delete threadId m) <= size m)%nat.
Proof. rewrite map_size_delete. destruct (m !! threadId); simpl; lia. Qed.

(** X9. Growth stops at [maxThreadSize_]: once the pool has been started
    and [maxThreadSize_] configured, no interleaving of submissions, worker
    steps and teardown takes the number of workers above the larger of
    [maxThreadSize_] and the number it started from. *)
Theorem workers_never_exceed_max w w' :
  rtc (step_grown RtType_default) w w' ->
  maxThreadSize_ (pool w') = maxThreadSize_ (pool w) /\
  Z.of_nat (size (threadsMap_ (pool w')))
    <= Z.max (Z.of_nat (size (threadsMap_ (pool w)))) (maxThreadSize_ (pool w)).
Proof.
  intros Hs. induction Hs as [w|w w1 w' (op & Hop & Hns & Hna) _ [IHmax IHsize]].
  { split; [done|lia]. }
  apply exec_map_effect in Hop as (Hmap & _ & _ & [Hmax|Hmax] & _); [|done..].
  rewrite IHmax, Hmax. split; [done|].
  destruct Hmap as [Hm|id _ Hnone Hm Hlt|id Hm _|id Hm _]; rewrite Hm in IHsize.
  - lia.
  - rewrite map_size_insert_None in IHsize by done. lia.
  - pose proof (size_delete_le id (threadsMap_ (pool w))). lia.
  - pose proof (size_delete_le id (threadsMap_ (pool w))). lia.
Qed.

Lemma step_started_running w w' :
  step_started RtType_default w w' ->
  isPoolRunning_ (pool w') = true -> isPoolRunning_ (pool w) = true.
Proof.
  intros (op & Hop & Hns). apply exec_map_effect in Hop as (_ & _ & Hrun & _ & _); done.
Qed.

Lemma rtc_step_started_running w w' :
  rtc (step_started RtType_default) w w' ->
  isPoolRunning_ (pool w') = true -> isPoolRunning_ (pool w) = true.
Proof. intros Hs. induction Hs; eauto using step_started_running. Qed.

(** X10. While the pool runs its workers stay: if the pool is still running
    after any interleaving of operations other than [start], then
    [initThreadSize_] is what it was and the number of workers, if it was
    at least [initThreadSize_], still is. *)
Theorem workers_never_below_init_while_running w w' :
  rtc (step_started RtType_default) w w' ->
  isPoolRunning_ (pool w') = true ->
  initThreadSize_ (pool w) <= Z.of_nat (size (threadsMap_ (pool w))) ->
  initThreadSize_ (pool w') = initThreadSize_ (pool w) /\
  initThreadSize_ (pool w') <= Z.of_nat (size (threadsMap_ (pool w'))).
Proof.
  intros Hs. induction Hs as [w|w w1 w' Hstep Hs IH]; [done|].
  intros Hrun' Hfloor.
  assert (isPoolRunning_ (pool w1) = true) as Hrun1
    by eauto using rtc_step_started_running.
  assert (isPoolRunning_ (pool w) = true) as Hrun
    by eauto using step_started_running.
  destruct Hstep as (op & Hop & Hns).
  apply exec_map_effect in Hop as (Hmap & Hinit & _ & _ & _); [|done].
  rewrite <- Hinit. apply IH; [done|]. rewrite Hinit.
  destruct Hmap as [Hm|id _ Hnone Hm Hlt|id Hm Hgt|id Hm Hstop]; rewrite Hm.
  - done.
  - rewrite map_size_insert_None by done. lia.
  - pose proof (size_delete_ge id (threadsMap_ (pool w))). lia.
  - congruence.
Qed.

(** X14. A fixed pool does not grow: while the pool runs in fixed mode, no
    interleaving of operations other than [start] changes the mode or adds
    a worker to the map. *)
Theorem fixed_pool_never_grows w w' :
  rtc (step_started RtType_default) w w' ->
  isPoolRunning_ (pool w') = true ->
  poolMode_ (pool w) = MODE_FIXED ->
  poolMode_ (pool w') = MODE_FIXED /\
  threadsMap_ (pool w') ⊆ threadsMap_ (pool w).
Proof.
  intros Hs. induction Hs as [w|w w1 w' Hstep Hs IH]; [done|].
  intros Hrun' Hfixed.
  assert (isPoolRunning_ (pool w1) = true) as Hrun1
    by eauto using rtc_step_started_running.
  assert (isPoolRunning_ (pool w) = true) as Hrun
    by eauto using step_started_running.
  destruct Hstep as (op & Hop & Hns).
  apply exec_map_effect in Hop as (Hmap & _ & _ & _ & Hmode); [|done].
  destruct IH as [IHmode IHmap]; [done|by rewrite Hmode|].
  split; [done|]. etrans; [exact IHmap|].
  destruct Hmap as [Hm|id Hcached _ _ _|id Hm _|id Hm _]; rewrite ?Hm.
  - done.
  - congruence.
  - apply delete_subseteq.
  - apply delete_subseteq.
Qed.

(** ** A worker running what is queued *)

Lemma to_int_dec_inc z : - 2 ^ 31 <= z < 2 ^ 31 -> Int.to_int (Int.to_int (z - 1) + 1) = z.
Proof.
  intros Hz. rewrite to_int_add_idemp.
  replace (z - 1 + 1) with z by lia. by apply to_int_small.
Qed.

(** One turn of a worker that finds a closure at the front whose packaged
    task has not been called, followed by [k]. *)
Lemma worker_turn_then {A} (k : M A) threadId (p : ptr) f q w :
  taskQueue_ (pool w) = InvokePackaged p :: q ->
  heap w !! p = Some (mkPackagedTask f NotReady) ->
  - 2 ^ 31 <= idleThreadSize_ (pool w) < 2 ^ 31 ->
  (pc <- threadFunc_lock threadId;; threadFunc_proceed pc;;; k) w
    = k (mkWorld
           (set_taskSize_ (Int.to_uint (taskSize_ (pool w) - 1))
              (set_taskQueue_ q (pool w)))
           (<[p := mkPackagedTask f (Value (f tt))]> (heap w))
           (trace (World_taken (InvokePackaged p) q w) ++ [IncIdleThreadSize])).
Proof.
  intros Hq Hp Hidle. unfold bind at 1, threadFunc_lock.
  rewrite (threadFunc_while_take threadId _ q) by done.
  unfold World_taken.
  destruct w as [[tm its mts mft idle q0 ts qmax pm running] h tr].
  unfold_members. unfold_prims. simpl in *. rewrite Hp. simpl.
  rewrite to_int_dec_inc by done. done.
Qed.

(** As many turns as there are closures in [q1], each capturing its own
    uncalled packaged task, on the packaged tasks themselves. *)
Lemma worker_iterations_run threadId q1 q2 w :
  taskQueue_ (pool w) = q1 ++ q2 ->
  runnable (heap w) q1 ->
  - 2 ^ 31 <= idleThreadSize_ (pool w) < 2 ^ 31 ->
  0 <= taskSize_ (pool w) < 2 ^ 32 ->
  exists w',
    worker_iterations (length q1) threadId w = Some (tt, w') /\
    pool w' = set_taskSize_ (Int.to_uint (taskSize_ (pool w) - Z.of_nat (length q1)))
                (set_taskQueue_ q2 (pool w)) /\
    fronted (trace w') = fronted (trace w) ++ q1 /\
    emplaced (trace w') = emplaced (trace w) /\
    (forall (p : ptr) f, InvokePackaged p ∈ q1 ->
       heap w !! p = Some (mkPackagedTask f NotReady) ->
       heap w' !! p = Some (mkPackagedTask f (Value (f tt)))) /\
    (forall p : ptr, InvokePackaged p ∉ q1 -> heap w' !! p = heap w !! p).
Proof.
  revert w. induction q1 as [|[p] q1 IH]; intros w Hq Hrun Hidle Hts.
  - exists w. simpl. split; [done|].
    rewrite Z.sub_0_r, to_uint_small, app_nil_r by done. simpl in Hq.
    split; [by destruct w as [[] ? ?]; simpl in *; subst|].
    repeat split; try done. intros p f Hp. by apply elem_of_nil in Hp.
  - destruct Hrun as [Hnd Hcalls]. apply NoDup_cons in Hnd as [Hp Hnd].
    destruct (Hcalls p) as [f Hf]; [by left|].
    simpl in Hq.
    change (worker_iterations (length (InvokePackaged p :: q1)) threadId w)
      with ((pc <- threadFunc_lock threadId;; threadFunc_proceed pc;;;
             worker_iterations (length q1) threadId) w).
    rewrite (worker_turn_then _ threadId p f (q1 ++ q2)) by done.
    match goal with |- context [worker_iterations _ _ ?w1] =>
      destruct (IH w1) as (w' & Hrun' & Hpool & Hfr & Hem & Hval & Hframe) end.
    + by destruct w as [[] ? ?].
    + split; [done|]. intros p' Hp'. simpl.
      destruct (Hcalls p') as [f' Hf']; [by right|].
      exists f'. rewrite list_lookup_insert_ne; [done|]. intros ->. done.
    + by destruct w as [[] ? ?].
    + destruct w as [[] ? ?]; simpl. apply to_uint_range.
    + exists w'. split; [done|]. simpl in *.
      split; [|split; [|split; [|split]]].
      * rewrite Hpool.
        destruct w as [[tm its mts mft idle q0 ts qmax pm running] h tr]; simpl.
        rewrite to_uint_sub_idemp. cbv [set_taskSize_ set_taskQueue_]. simpl.
        f_equal. f_equal. lia.
      * rewrite Hfr. unfold World_taken. simpl.
        rewrite !fronted_app. simpl.
        destruct (q1 ++ q2); simpl; rewrite ?app_nil_r, <- ?app_assoc; done.
      * rewrite Hem. unfold World_taken. simpl.
        rewrite !emplaced_app. simpl.
        destruct (q1 ++ q2); simpl; rewrite ?app_nil_r; done.
      * intros p' f' Hp' Hf'. apply elem_of_cons in Hp' as [Heq|Hp'].
        -- simplify_eq. rewrite Hframe by done.
           apply list_lookup_insert_eq. by eapply lookup_lt_Some.
        -- apply Hval; [done|]. rewrite list_lookup_insert_ne; [done|].
           intros ->. done.
      * intros p' Hp'. rewrite Hframe by (intros ?; apply Hp'; by right).
        apply list_lookup_insert_ne. intros ->. apply Hp'. by left.
Qed.

(** X4. A worker left alone with the queue runs the tasks in the order in
    which they are queued: after as many turns as there are closures in
    [q1], each capturing its own uncalled packaged task, the queue holds
    what was behind them, the future of each holds the value of its
    callable, the other packaged tasks are untouched, the task counter is
    down by their number and the idle counter is back where it was. *)
Theorem worker_runs_queued_tasks threadId q1 q2 w :
  taskQueue_ (pool w) = q1 ++ q2 ->
  runnable (heap w) q1 ->
  - 2 ^ 31 <= idleThreadSize_ (pool w) < 2 ^ 31 ->
  0 <= taskSize_ (pool w) < 2 ^ 32 ->
  exists w',
    worker_iterations (length q1) threadId w = Some (tt, w') /\
    pool w' = set_taskSize_ (Int.to_uint (taskSize_ (pool w) - Z.of_nat (length q1)))
                (set_taskQueue_ q2 (pool w)) /\
    fronted (trace w') = fronted (trace w) ++ q1 /\
    emplaced (trace w') = emplaced (trace w) /\
    (forall (p : ptr) f, InvokePackaged p ∈ q1 ->
       heap w !! p = Some (mkPackagedTask f NotReady) ->
       future_state (Future p) w' = Some (Value (f tt))) /\
    (forall p : ptr, InvokePackaged p ∉ q1 ->
       future_state (Future p) w' = future_state (Future p) w).
Proof.
  intros Hq Hrun Hidle Hts.
  destruct (worker_iterations_run threadId q1 q2 w Hq Hrun Hidle Hts)
    as (w' & Hiter & Hpool & Hfr & Hem & Hval & Hframe).
  exists w'. split; [done|]. split; [done|]. split; [done|]. split; [done|].
  unfold future_state. split.
  - intros p f Hp Hf. by rewrite (Hval p f).
  - intros p Hp. by rewrite Hframe.
Qed.

(** ** A worker of a stopped pool *)

(** A worker that does not take the retire branch is at the test of the
    [while] loop. *)
Lemma threadFunc_enter_while entry threadId w :
  ~ takes_retire_branch entry (pool w) ->
  threadFunc_enter entry threadId w = threadFunc_while threadId w.
Proof.
  intros Hno. destruct entry as [| |last [] now]; try done. simpl in *.
  destruct ((maxThreadFreeTime_ (pool w) <=? Int.to_size_t (Chrono.seconds (now - last)))
            && (initThreadSize_ (pool w) <? Z.of_nat (size (threadsMap_ (pool w)))))
    eqn:E.
  - exfalso. apply Hno. apply andb_true_iff in E as [?%Z.leb_le ?%Z.ltb_lt]. done.
  - destruct w as [[tm its mts mft idle q0 ts qmax pm running] h tr].
    unfold threadFunc_wait_for_returns. unfold_prims. simpl in *. by rewrite E.
Qed.

(** A worker that takes the retire branch returns from there. *)
Lemma threadFunc_enter_retires entry threadId w :
  takes_retire_branch entry (pool w) ->
  threadFunc_enter entry threadId w
    = Some (WorkerReturn ExitIdleTimeout, World_retired threadId w).
Proof.
  destruct entry as [| |last [] now]; try done. simpl.
  intros [H1%Z.leb_le H2%Z.ltb_lt]. unfold World_retired.
  destruct w as [[tm its mts mft idle q0 ts qmax pm running] h tr].
  unfold threadFunc_wait_for_returns. unfold_prims. simpl in *.
  rewrite H1, H2. simpl. rewrite to_int_dec_dec, <- !app_assoc. done.
Qed.

(** The worker of a stopped pool that finds the queue empty. *)
Lemma threadFunc_while_stopped threadId w :
  isPoolRunning_ (pool w) = false ->
  taskQueue_ (pool w) = [] ->
  threadFunc_while threadId w
    = Some (WorkerReturn ExitPoolStopped,
            mkWorld (set_threadsMap_ (delete threadId (threadsMap_ (pool w))) (pool w))
              (heap w)
              (trace w ++ [MapErase threadId; NotifyAll waitForWorkFinished_])).
Proof.
  intros Hstop Hq.
  destruct w as [[tm its mts mft idle q0 ts qmax pm running] h tr].
  simpl in *. subst q0 running. unfold threadFunc_while. unfold_prims. simpl.
  by rewrite <- app_assoc.
Qed.

Lemma bind_run {A B} (m : M (RtType := RtType) A) (k : A -> M B) w a w1 :
  m w = Some (a, w1) -> (x <- m;; k x) w = k a w1.
Proof. unfold bind. by intros ->. Qed.

Lemma worker_continues_returned fuel threadId path w :
  worker_continues fuel threadId (WorkerReturn path) w = Some (WorkerReturn path, w).
Proof. by destruct fuel. Qed.

(** One task run by a worker that goes on. *)
Lemma worker_continues_turn fuel threadId (p : ptr) f q w :
  taskQueue_ (pool w) = InvokePackaged p :: q ->
  heap w !! p = Some (mkPackagedTask f NotReady) ->
  - 2 ^ 31 <= idleThreadSize_ (pool w) < 2 ^ 31 ->
  (pc <- threadFunc_while threadId;; worker_continues (S fuel) threadId pc) w
    = (pc <- threadFunc_while threadId;; worker_continues fuel threadId pc)
        (mkWorld
           (set_taskSize_ (Int.to_uint (taskSize_ (pool w) - 1))
              (set_taskQueue_ q (pool w)))
           (<[p := mkPackagedTask f (Value (f tt))]> (heap w))
           (trace (World_taken (InvokePackaged p) q w) ++ [IncIdleThreadSize])).
Proof.
  intros Hq Hp Hidle.
  pose proof (worker_turn_then
                (pc <- threadFunc_while threadId;; worker_continues fuel threadId pc)
                threadId p f q w Hq Hp Hidle) as Hturn.
  unfold threadFunc_lock in Hturn.
  rewrite (bind_run _ _ _ _ _ (threadFunc_while_take threadId _ q w Hq)) in Hturn.
  rewrite (bind_run _ _ _ _ _ (threadFunc_while_take threadId _ q w Hq)).
  exact Hturn.
Qed.

(** On a stopped pool a worker at the test of the [while] loop runs all
    that is queued and leaves through the shutdown branch. *)
Lemma worker_drains_stopped threadId q : forall fuel w,
  isPoolRunning_ (pool w) = false ->
  taskQueue_ (pool w) = q ->
  runnable (heap w) q ->
  (length q <= fuel)%nat ->
  - 2 ^ 31 <= idleThreadSize_ (pool w) < 2 ^ 31 ->
  exists w',
    (pc <- threadFunc_while threadId;; worker_continues fuel threadId pc) w
      = Some (WorkerReturn ExitPoolStopped, w') /\
    taskQueue_ (pool w') = [] /\
    threadsMap_ (pool w') = delete threadId (threadsMap_ (pool w)) /\
    idleThreadSize_ (pool w') = idleThreadSize_ (pool w) /\
    fronted (trace w') = fronted (trace w) ++ q /\
    (exists acts,
       trace w' = acts ++ [MapErase threadId; NotifyAll waitForWorkFinished_]) /\
    (forall (p : ptr) f, InvokePackaged p ∈ q ->
       heap w !! p = Some (mkPackagedTask f NotReady) ->
       heap w' !! p = Some (mkPackagedTask f (Value (f tt)))) /\
    (forall p : ptr, InvokePackaged p ∉ q -> heap w' !! p = heap w !! p).
Proof.
  induction q as [|[p] q IH]; intros fuel w Hstop Hq Hrun Hfuel Hidle.
  - eexists. split.
    { unfold bind at 1. rewrite threadFunc_while_stopped by done.
      apply worker_continues_returned. }
    simpl. rewrite fronted_app, app_nil_r. simpl. rewrite app_nil_r.
    destruct w as [[tm its mts mft idle q0 ts qmax pm running] h tr]; simpl in *.
    repeat split; try done.
    + by exists tr.
    + intros p f Hp. by apply elem_of_nil in Hp.
  - destruct fuel as [|fuel]; [simpl in Hfuel; lia|].
    destruct Hrun as [Hnd Hcalls]. apply NoDup_cons in Hnd as [Hp Hnd].
    destruct (Hcalls p) as [f Hf]; [by left|].
    rewrite (worker_continues_turn fuel threadId p f q w) by done.
    match goal with |- context [bind _ _ ?w1] =>
      destruct (IH fuel w1)
        as (w' & Hres & Hq' & Hmap & Hidle' & Hfr & Hacts & Hval & Hframe) end.
    + by destruct w as [[] ? ?].
    + by destruct w as [[] ? ?].
    + split; [done|]. intros p' Hp'. simpl.
      destruct (Hcalls p') as [f' Hf']; [by right|].
      exists f'. rewrite list_lookup_insert_ne; [done|]. intros ->. done.
    + simpl in Hfuel. lia.
    + by destruct w as [[] ? ?].
    + exists w'. split; [done|]. simpl in *.
      split; [done|]. split; [by destruct w as [[] ? ?]|].
      split; [by destruct w as [[] ? ?]|]. split; [|split; [done|split]].
      * rewrite Hfr. unfold World_taken. simpl.
        rewrite !fronted_app. simpl.
        destruct q; simpl; rewrite ?app_nil_r, <- ?app_assoc; done.
      * intros p' f' Hp' Hf'. apply elem_of_cons in Hp' as [Heq|Hp'].
        -- simplify_eq. rewrite Hframe by done.
           apply list_lookup_insert_eq. by eapply lookup_lt_Some.
        -- apply Hval; [done|]. rewrite list_lookup_insert_ne; [done|].
           intros ->. done.
      * intros p' Hp'. rewrite Hframe by (intros ?; apply Hp'; by right).
        apply list_lookup_insert_ne. intros ->. apply Hp'. by left.
Qed.

(** X5. Teardown and queued work: on a pool that the destructor has
    stopped, a worker that comes to hold the mutex - at the top of its
    loop, on the return of [wait], or on the return of [wait_for] when the
    test of the retire branch fails - and is then left alone runs every
    queued task, in order, before it finds the queue empty; only then does
    it erase itself from the worker map, notify [waitForWorkFinished_] and
    return.  The retire branch is the other way out: a worker whose
    [wait_for] timed out with the test of that branch true erases itself
    at once, whatever is queued, with no task run and no notification. *)
Theorem stopped_pool_worker_drains_queue entry threadId q fuel w :
  isPoolRunning_ (pool w) = false ->
  taskQueue_ (pool w) = q ->
  runnable (heap w) q ->
  (length q <= fuel)%nat ->
  - 2 ^ 31 <= idleThreadSize_ (pool w) < 2 ^ 31 ->
  (~ takes_retire_branch entry (pool w) ->
   exists w',
     worker_resumes entry fuel threadId w = Some (WorkerReturn ExitPoolStopped, w') /\
     taskQueue_ (pool w') = [] /\
     threadsMap_ (pool w') = delete threadId (threadsMap_ (pool w)) /\
     fronted (trace w') = fronted (trace w) ++ q /\
     (exists acts,
        trace w' = acts ++ [MapErase threadId; NotifyAll waitForWorkFinished_]) /\
     (forall (p : ptr) f, InvokePackaged p ∈ q ->
        heap w !! p = Some (mkPackagedTask f NotReady) ->
        future_state (Future p) w' = Some (Value (f tt)))) /\
  (takes_retire_branch entry (pool w) ->
   exists w',
     worker_resumes entry fuel threadId w = Some (WorkerReturn ExitIdleTimeout, w') /\
     taskQueue_ (pool w') = q /\
     threadsMap_ (pool w') = delete threadId (threadsMap_ (pool w)) /\
     heap w' = heap w /\
     trace w' = trace w ++
       [DecIdleThreadSize;
        Cout (MsgThreadsMapSize (Z.of_nat (size (threadsMap_ (pool w)))));
        Cout MsgTimeoutDeleteThread;
        MapErase threadId;
        DecIdleThreadSize]).
Proof.
  intros Hstop Hq Hrun Hfuel Hidle. split.
  - intros Hno.
    destruct (worker_drains_stopped threadId q fuel w)
      as (w' & Hres & Hq' & Hmap & _ & Hfr & Hacts & Hval & _); [done..|].
    exists w'. unfold worker_resumes, bind at 1.
    rewrite threadFunc_enter_while by done.
    split; [exact Hres|]. split; [done|]. split; [done|]. split; [done|].
    split; [done|]. intros p f Hp Hf. unfold future_state. by rewrite (Hval p f).
  - intros Hyes. exists (World_retired threadId w).
    unfold worker_resumes, bind at 1.
    rewrite threadFunc_enter_retires by done.
    split; [apply worker_continues_returned|].
    by destruct w as [[] ? ?]; simpl in *.
Qed.

(** ** Teardown of a pool whose queue is empty *)

(** The test of the retire branch does not read [isPoolRunning_]. *)
Lemma no_worker_retires_running b wakes : forall p,
  no_worker_retires p wakes -> no_worker_retires (set_isPoolRunning_ b p) wakes.
Proof.
  induction wakes as [|[threadId entry] wakes IH]; intros p; [done|].
  simpl. intros [Hno Hrest]. split.
  - by destruct entry as [| |last [] now], p.
  - apply IH in Hrest. by destruct p.
Qed.

(** One worker leaves a stopped pool with an empty queue while the
    destructor waits: the destructor is notified and tests the map. *)
Lemma teardown_wakes_left threadId entry wakes w :
  isPoolRunning_ (pool w) = false ->
  taskQueue_ (pool w) = [] ->
  ~ takes_retire_branch entry (pool w) ->
  teardown_wakes DtorWaiting ((threadId, entry) :: wakes) w
    = (r <- teardown_wakes
              (if Z.of_nat (size (delete threadId (threadsMap_ (pool w)))) =? 0
               then DtorReturn else DtorWaiting) wakes;;
       ret (fst r, WorkerReturn ExitPoolStopped :: snd r))
        (mkWorld (set_threadsMap_ (delete threadId (threadsMap_ (pool w))) (pool w))
           (heap w)
           (trace w ++ [MapErase threadId; NotifyAll waitForWorkFinished_])).
Proof.
  intros Hstop Hq Hno.
  cbn [teardown_wakes]. unfold bind at 1. unfold get_trace at 1.
  unfold bind at 1. rewrite threadFunc_enter_while, threadFunc_while_stopped by done.
  unfold bind at 1. unfold notified_since, get_trace, bind at 1, ret at 1. simpl.
  rewrite drop_app_length.
  rewrite bool_decide_true by (apply elem_of_cons; right; apply elem_of_cons; by left).
  unfold bind at 1. unfold dtor_wait_test at 1. unfold_prims. simpl.
  destruct w as [[tm its mts mft idle q0 ts qmax pm running] h tr]; simpl.
  by destruct (Z.of_nat (size (delete threadId tm)) =? 0).
Qed.

(** The workers of a stopped pool with an empty queue leave one by one;
    the destructor returns after the last. *)
Lemma teardown_wakes_stopped wakes : forall w,
  isPoolRunning_ (pool w) = false ->
  taskQueue_ (pool w) = [] ->
  NoDup wakes.*1 ->
  (forall k, is_Some (threadsMap_ (pool w) !! k) <-> k ∈ wakes.*1) ->
  no_worker_retires (pool w) wakes ->
  wakes <> [] ->
  exists w',
    teardown_wakes DtorWaiting wakes w
      = Some ((DtorReturn, const (WorkerReturn ExitPoolStopped) <$> wakes), w') /\
    pool w' = set_threadsMap_ ∅ (pool w) /\
    heap w' = heap w /\
    trace w' = trace w ++
      flat_map (fun wake => [MapErase wake.1; NotifyAll waitForWorkFinished_]) wakes.
Proof.
  induction wakes as [|[threadId entry] wakes IH]; intros w Hstop Hq Hnd Hdom Hno Hne;
    [done|]. clear Hne.
  destruct Hno as [Hno1 Hno]. simpl in Hnd, Hdom.
  apply NoDup_cons in Hnd as [Hid Hnd].
  rewrite teardown_wakes_left by done.
  assert (forall k, is_Some (delete threadId (threadsMap_ (pool w)) !! k)
                    <-> k ∈ wakes.*1) as Hdom'.
  { intros k. destruct (decide (k = threadId)) as [->|Hne].
    - rewrite lookup_delete_eq. split; [by intros [? ?]|done].
    - rewrite lookup_delete_ne by done. rewrite Hdom, elem_of_cons.
      split; [by intros [?|?]|by right]. }
  destruct wakes as [|wake wakes].
  - (* the last worker *)
    assert (delete threadId (threadsMap_ (pool w)) = ∅) as Hempty.
    { apply map_empty. intros k. apply eq_None_not_Some. rewrite Hdom'. simpl.
      apply not_elem_of_nil. }
    rewrite Hempty, map_size_empty. simpl. unfold bind, ret. simpl.
    eexists. split; [reflexivity|]. simpl. done.
  - assert ((Z.of_nat (size (delete threadId (threadsMap_ (pool w)))) =? 0) = false)
      as ->.
    { apply Z.eqb_neq. intros Hz.
      assert (delete threadId (threadsMap_ (pool w)) = ∅) as Hempty
        by (apply map_size_empty_iff; lia).
      assert (is_Some (delete threadId (threadsMap_ (pool w)) !! wake.1)) as [t Ht]
        by (apply Hdom'; simpl; by left).
      by rewrite Hempty, lookup_empty in Ht. }
    match goal with |- context [bind _ _ ?w1] =>
      destruct (IH w1) as (w' & Hrun & Hpool & Hheap & Htr) end;
      try done.
    unfold bind at 1. rewrite Hrun. simpl in *.
    exists w'. split; [done|]. rewrite Hpool, Hheap, Htr, <- !app_assoc.
    by destruct w as [[] ? ?].
Qed.

(** X6. The destructor on a pool with an empty queue: it stops the pool and
    notifies [queueNotEmpty_]; its first test of the worker map succeeds
    exactly when there is no worker.  When every worker of the map then
    comes to hold the mutex and none takes the retire branch - each is at
    the top of its loop, or returns from [wait], or returns from [wait_for]
    with the test of the retire branch false when its turn comes - each
    finds the pool stopped, erases itself, notifies [waitForWorkFinished_]
    and returns; the destructor, notified, tests the map after each of
    them and returns after the last, with an empty map. *)
Theorem teardown_returns_after_workers_left wakes w :
  taskQueue_ (pool w) = [] ->
  NoDup wakes.*1 ->
  (forall k, is_Some (threadsMap_ (pool w) !! k) <-> k ∈ wakes.*1) ->
  no_worker_retires (pool w) wakes ->
  exists pc1 w',
    teardown wakes w
      = Some ((pc1, const (WorkerReturn ExitPoolStopped) <$> wakes, DtorReturn), w') /\
    (pc1 = DtorReturn <-> threadsMap_ (pool w) = ∅) /\
    threadsMap_ (pool w') = ∅ /\
    isPoolRunning_ (pool w') = false /\
    trace w' = trace w ++ [NotifyAll queueNotEmpty_] ++
      flat_map (fun wake => [MapErase wake.1; NotifyAll waitForWorkFinished_]) wakes.
Proof.
  intros Hq Hnd Hdom Hno. apply (no_worker_retires_running false) in Hno.
  destruct w as [[tm its mts mft idle q0 ts qmax pm running] h tr].
  simpl in Hq, Hdom, Hno. subst q0.
  unfold teardown, dtor_stop, dtor_lock, dtor_wait_test. unfold_prims. simpl.
  cbv [set_isPoolRunning_]. simpl.
  destruct (Z.eqb_spec (Z.of_nat (size tm)) 0) as [Hz|Hz].
  - (* no worker *)
    assert (tm = ∅) as -> by (apply map_size_empty_iff; lia).
    destruct wakes as [|wake wakes].
    + simpl. eexists _, _. split; [reflexivity|]. simpl. done.
    + exfalso. assert (is_Some ((∅ : gmap Z Thread) !! wake.1)) as [t Ht]
        by (apply Hdom; simpl; by left).
      by rewrite lookup_empty in Ht.
  - assert (wakes <> []) as Hne.
    { intros ->. apply Hz.
      assert (tm = ∅) as ->; [|by rewrite map_size_empty].
      apply map_empty. intros k. apply eq_None_not_Some. rewrite Hdom.
      apply not_elem_of_nil. }
    destruct (teardown_wakes_stopped wakes
                (mkWorld (mkThreadPool tm its mts mft idle [] ts qmax pm false) h
                   (tr ++ [NotifyAll queueNotEmpty_])))
      as (w' & Hrun & Hpool & Hheap & Htr); try done.
    rewrite Hrun. simpl in *. eexists _, w'. split; [reflexivity|].
    rewrite Hpool, Htr, <- app_assoc. simpl.
    repeat split; try done. intros ->. by rewrite map_size_empty in Hz.
Qed.

(** X15. The retire branch does not notify the destructor: when the worker
    that is the last in the map of a pool under teardown returns from
    [wait_for] with a timeout and the test of the retire branch true, it
    erases itself without a call of [waitForWorkFinished_.notify_all]; the
    destructor, which found the map non-empty, is not woken and stays
    inside its wait although the map is now empty. *)
Theorem teardown_not_notified_by_retiring_worker threadId last now w :
  is_Some (threadsMap_ (pool w) !! threadId) ->
  delete threadId (threadsMap_ (pool w)) = ∅ ->
  takes_retire_branch (EntryWaitFor last timeout now) (pool w) ->
  exists w',
    teardown [(threadId, EntryWaitFor last timeout now)] w
      = Some ((DtorWaiting, [WorkerReturn ExitIdleTimeout], DtorWaiting), w') /\
    threadsMap_ (pool w') = ∅ /\
    isPoolRunning_ (pool w') = false /\
    taskQueue_ (pool w') = taskQueue_ (pool w) /\
    trace w' = trace w ++
      [NotifyAll queueNotEmpty_;
       DecIdleThreadSize;
       Cout (MsgThreadsMapSize (Z.of_nat (size (threadsMap_ (pool w)))));
       Cout MsgTimeoutDeleteThread;
       MapErase threadId;
       DecIdleThreadSize] /\
    NotifyAll waitForWorkFinished_ ∉ drop (length (trace w)) (trace w').
Proof.
  intros [t Ht] Hlast [H1%Z.leb_le H2%Z.ltb_lt].
  destruct w as [[tm its mts mft idle q0 ts qmax pm running] h tr].
  simpl in *.
  assert ((Z.of_nat (size tm) =? 0) = false) as Hsize.
  { apply Z.eqb_neq. intros Hz.
    assert (tm = ∅) as -> by (apply map_size_empty_iff; lia).
    by rewrite lookup_empty in Ht. }
  unfold teardown, dtor_stop, dtor_lock, dtor_wait_test. unfold_prims. simpl.
  cbv [set_isPoolRunning_]. simpl. rewrite Hsize. simpl.
  unfold get_trace, notified_since, threadFunc_wait_for_returns, get_trace.
  unfold_prims. simpl. rewrite H1, H2. simpl.
  remember (tr ++ [NotifyAll queueNotEmpty_]) as tr1 eqn:Htr1.
  rewrite <- !app_assoc. simpl.
  rewrite drop_app_length.
  rewrite bool_decide_false.
  2: { intros Hin. repeat (apply elem_of_cons in Hin as [Hin|Hin]; [discriminate|]).
       by apply elem_of_nil in Hin. }
  simpl. eexists. split; [reflexivity|]. simpl.
  subst tr1. rewrite Hlast, <- app_assoc, drop_app_length. simpl.
  repeat split; try done.
  intros Hin. repeat (apply elem_of_cons in Hin as [Hin|Hin]; [discriminate|]).
  by apply elem_of_nil in Hin.
Qed.

(** ** Waking without work *)


(** ** Futures *)

Lemma exec_ready_stable op w w' (c : ptr) pt :
  exec RtType_default op w = Some w' ->
  heap w !! c = Some pt ->
  shared pt <> NotReady ->
  heap w' !! c = Some pt.
Proof.
  intros H Hpt Hready. pose proof (lookup_lt_Some _ _ _ Hpt) as Hlt.
  destruct op; simpl in H.
  5: { unfold run in H.
       destruct (start initThreadSize ids w) as [[[] w1]|] eqn:E; simplify_eq/=.
       apply start_pool in E as (m & idle' & _ & Hh). by rewrite Hh. }
  all: try match goal with t : Task |- _ => destruct t as [c'] end.
  all: destruct w as [[tm its mts mft idle q ts qmax pm running] h tr].
  all: unfold_members; unfold_prims; simpl in *.
  all: simplify_eq/=; repeat (case_match; simplify_eq/=); try done.
  all: try (rewrite lookup_app_l by lia; done).
  all: try (destruct (decide (task = c)) as [->|];
            [rewrite lookup_app_l in * by lia; simplify_eq; done|]).
  all: try (destruct (decide (c' = c)) as [->|]; [simplify_eq; done|]).
  all: rewrite ?list_lookup_insert_ne by (try done; lia).
  all: rewrite ?lookup_app_l by lia; try done.
  all: match goal with
       | H : <[length ?h0 := _]> (?h0 ++ _) !! ?t = Some ?p0,
         Hn : shared ?p0 = NotReady |- _ =>
           destruct (decide (t = c)) as [->|];
           [ rewrite list_lookup_insert_ne, lookup_app_l in H by lia; congruence
           | rewrite !list_lookup_insert_ne, lookup_app_l by (try done; lia); done ]
       end.
Qed.

(** X8. A future is set once: when the shared state of a future holds a
    value, or the broken promise, no interleaving of operations of the pool
    changes what it holds. *)
Theorem ready_future_is_stable (result : future) s w w' :
  future_state result w = Some s ->
  s <> NotReady ->
  rtc (step RtType_default) w w' ->
  future_state result w' = Some s.
Proof.
  destruct result as [c]. unfold future_state.
  intros Hs Hready Hsteps. revert Hs.
  induction Hsteps as [w|w w1 w' (op & Hop) _ IH]; [done|].
  intros Hs. apply IH.
  destruct (heap w !! c) as [pt|] eqn:Hpt; simplify_eq/=.
  by rewrite (exec_ready_stable op w w1 c pt).
Qed.

(** ** Configuration, continued *)

(** X11. The order of configuration matters: on a stopped pool in fixed
    mode, setting the mode to cached first lets [setTaskQueueMaxSize] and
    [setMaxThreadFreeTime_] assign their arguments, while calling them
    before [setMode] leaves the bound of the queue and the idle timeout as
    they were and changes the mode only. *)
Theorem configuration_needs_mode_first maxSize_ time w :
  isPoolRunning_ (pool w) = false ->
  poolMode_ (pool w) = MODE_FIXED ->
  configure_mode_first maxSize_ time w
    = Some (tt, mkWorld
                  (set_maxThreadFreeTime_ time
                     (set_taskQueueMaxSize_ (Int.to_size_t maxSize_)
                        (set_poolMode_ MODE_CACHED (pool w))))
                  (heap w) (trace w)) /\
  configure_mode_last maxSize_ time w
    = Some (tt, mkWorld (set_poolMode_ MODE_CACHED (pool w)) (heap w) (trace w)).
Proof.
  intros Hrun Hmode.
  destruct w as [[tm its mts mft idle q0 ts qmax pm running] h tr].
  simpl in *. subst pm running.
  unfold configure_mode_first, configure_mode_last.
  unfold_members. unfold_prims. simpl. done.
Qed.

(** ** Submission, continued *)

(** X12. [submitTask] does not look at [isPoolRunning_]: on a pool that was
    never started, or that the destructor has stopped, a critical section
    of [submitTask] does exactly what it does on the running pool, and
    leaves the flag alone. *)
Theorem submitTask_ignores_running_flag b task result expired threadId w :
  submitTask_locked RtType_default task result expired threadId (with_running b w)
    = prod_map id (with_running b)
        <$> submitTask_locked RtType_default task result expired threadId w.
Proof.
  destruct w as [[tm its mts mft idle q0 ts qmax pm running] h tr].
  unfold with_running. unfold_members. unfold_prims. simpl.
  repeat (case_match; simplify_eq/=); done.
Qed.

(** X13. The growth check compares the counters as [unsigned]: whenever the
    idle counter is negative, an accepted submission creates and starts no
    worker, whatever the mode and however few workers there are, as long
    as fewer than 2^31 - 1 tasks are pending. *)
Theorem negative_idle_counter_stops_growth task result expired threadId w :
  Z.of_nat (length (taskQueue_ (pool w))) < taskQueueMaxSize_ (pool w) ->
  - 2 ^ 31 <= idleThreadSize_ (pool w) < 0 ->
  0 <= taskSize_ (pool w) < 2 ^ 31 - 1 ->
  exists w',
    submitTask_locked RtType_default task result expired threadId w
      = Some (SubmitReturn result, w') /\
    trace w' = trace w ++ enqueue_actions task /\
    threadsMap_ (pool w') = threadsMap_ (pool w) /\
    idleThreadSize_ (pool w') = idleThreadSize_ (pool w).
Proof.
  intros Hroom Hidle Hts. apply Z.ltb_lt in Hroom.
  destruct w as [[tm its mts mft idle q ts qmax pm running] h tr].
  unfold_members; unfold_prims; simpl in *. rewrite Hroom. simpl.
  assert ((Int.to_uint idle <? Int.to_uint (ts + 1)) = false) as ->.
  { apply Z.ltb_ge. rewrite (to_uint_small (ts + 1)) by lia.
    unfold Int.to_uint.
    replace idle with (idle + 2 ^ 32 + (-1) * 2 ^ 32) by lia.
    rewrite Z_mod_plus_full, Z.mod_small by lia. lia. }
  rewrite andb_false_r. simpl. eexists. split; [reflexivity|].
  simpl. rewrite <- !app_assoc. done.
Qed.

End FurtherProperties.

(** * Instances of the further theorems *)

Ltac evaluate' :=
  vm_compute; repeat split; first [reflexivity | discriminate].

(** Closed decidable facts about lists of ids and tasks. *)
Ltac decide_closed := apply (bool_decide_unpack _); vm_compute; exact I.

(** [start(2)] on a freshly constructed pool, the handles having the ids 0
    and 1. *)
Lemma start_launches_keys_below_count_witness :
  Z.of_nat (length [0; 1]) = 2 /\
  2 < 2 ^ 31 /\
  NoDup [0; 1] /\
  exists w',
    start 2 [0; 1] (World_init (RtType := Z)) = Some (tt, w') /\
    isPoolRunning_ (pool w') = true /\
    initThreadSize_ (pool w') = 2.
Proof.
  assert (NoDup [0; 1]) as Hnd by decide_closed.
  split; [reflexivity|]. split; [reflexivity|]. split; [exact Hnd|].
  destruct (start_launches_keys_below_count 2 [0; 1] (World_init (RtType := Z)))
    as (w' & Hstart & Hrun & Hinit & _); try done.
  - intros k Hk. left. assert (k = 0 \/ k = 1) as [-> | ->] by lia; decide_closed.
  - exists w'. split; [exact Hstart|]. split; [exact Hrun|exact Hinit].
Defined.

(** [start(2)] where the handles have the ids 5 and 6: the key 0 is
    missing. *)
Lemma start_undefined_without_key_witness :
  Z.of_nat (length [5; 6]) = 2 /\
  0 <= 0 < 2 /\
  (0 ∉ [5; 6]) /\
  threadsMap_ (pool (World_init (RtType := Z))) !! 0 = None /\
  start 2 [5; 6] (World_init (RtType := Z)) = None.
Proof.
  assert (0 ∉ [5; 6]) as Hnot by decide_closed.
  split; [reflexivity|]. split; [lia|]. split; [exact Hnot|]. split; [reflexivity|].
  apply (start_undefined_without_key 2 [5; 6] (World_init (RtType := Z)) 0);
    [reflexivity|lia|exact Hnot|reflexivity].
Defined.

(** The counter after a pool was started and one task submitted. *)
Lemma taskSize_tracks_queue_witness :
  counter_tracks_queue (World_init (RtType := Z)) /\
  rtc (step 0) World_init (world_after scenario_one_task) /\
  counter_tracks_queue (world_after scenario_one_task).
Proof.
  assert (counter_tracks_queue (World_init (RtType := Z))) as Hc by reflexivity.
  assert (rtc (step 0) World_init (world_after scenario_one_task)) as Hs.
  { eapply rtc_l; [exists (OpStart 2 [0; 1]); vm_compute; reflexivity|].
    eapply rtc_l;
      [exists (OpSubmitPackage (fun _ => add1 1 2)); vm_compute; reflexivity|].
    eapply rtc_l; [|apply rtc_refl].
    exists (OpSubmitLocked 0 (Future 0) false 2). vm_compute. reflexivity. }
  split; [exact Hc|]. split; [exact Hs|].
  exact (taskSize_tracks_queue 0 _ _ Hc Hs).
Defined.

Lemma two_tasks_runnable :
  runnable (heap (world_after scenario_two_tasks)) [InvokePackaged 0; InvokePackaged 1].
Proof.
  split; [decide_closed|]. intros p Hp.
  repeat (apply elem_of_cons in Hp as [Hp|Hp];
          [injection Hp as ->; eexists; vm_compute; reflexivity|]).
  by apply elem_of_nil in Hp.
Qed.

(** One worker runs the two tasks of the README. *)
Lemma worker_runs_queued_tasks_witness :
  taskQueue_ (pool (world_after scenario_two_tasks))
    = [InvokePackaged 0; InvokePackaged 1] ++ [] /\
  runnable (heap (world_after scenario_two_tasks)) [InvokePackaged 0; InvokePackaged 1] /\
  - 2 ^ 31 <= idleThreadSize_ (pool (world_after scenario_two_tasks)) < 2 ^ 31 /\
  0 <= taskSize_ (pool (world_after scenario_two_tasks)) < 2 ^ 32 /\
  exists w',
    worker_iterations 2 0 (world_after scenario_two_tasks) = Some (tt, w') /\
    fronted (trace w')
      = fronted (trace (world_after scenario_two_tasks))
          ++ [InvokePackaged 0; InvokePackaged 1].
Proof.
  assert (- 2 ^ 31 <= idleThreadSize_ (pool (world_after scenario_two_tasks)) < 2 ^ 31)
    as Hidle by evaluate'.
  assert (0 <= taskSize_ (pool (world_after scenario_two_tasks)) < 2 ^ 32)
    as Hts by evaluate'.
  assert (taskQueue_ (pool (world_after scenario_two_tasks))
            = [InvokePackaged 0; InvokePackaged 1] ++ [])
    as Hq by (vm_compute; reflexivity).
  split; [exact Hq|]. split; [exact two_tasks_runnable|].
  split; [exact Hidle|]. split; [exact Hts|].
  destruct (worker_runs_queued_tasks 0 [InvokePackaged 0; InvokePackaged 1] []
              (world_after scenario_two_tasks) Hq two_tasks_runnable Hidle Hts)
    as (w' & Hrun & _ & Hfr & _).
  exists w'. split; [exact Hrun|exact Hfr].
Defined.

Lemma two_tasks_stopped_runnable :
  runnable (heap (world_after scenario_two_tasks_stopped))
    [InvokePackaged 0; InvokePackaged 1].
Proof.
  split; [decide_closed|]. intros p Hp.
  repeat (apply elem_of_cons in Hp as [Hp|Hp];
          [injection Hp as ->; eexists; vm_compute; reflexivity|]).
  by apply elem_of_nil in Hp.
Qed.

(** The same on the stopped pool: a worker that wakes from [wait] runs
    both tasks and leaves after the second. *)
Lemma stopped_pool_worker_drains_queue_witness :
  isPoolRunning_ (pool (world_after scenario_two_tasks_stopped)) = false /\
  taskQueue_ (pool (world_after scenario_two_tasks_stopped))
    = [InvokePackaged 0; InvokePackaged 1] /\
  (length [InvokePackaged 0; InvokePackaged 1] <= 2)%nat /\
  ~ takes_retire_branch EntryWait (pool (world_after scenario_two_tasks_stopped)) /\
  exists w',
    worker_resumes EntryWait 2 0 (world_after scenario_two_tasks_stopped)
      = Some (WorkerReturn ExitPoolStopped, w') /\
    taskQueue_ (pool w') = [] /\
    fronted (trace w')
      = fronted (trace (world_after scenario_two_tasks_stopped))
          ++ [InvokePackaged 0; InvokePackaged 1].
Proof.
  assert (isPoolRunning_ (pool (world_after scenario_two_tasks_stopped)) = false)
    as Hstop by (vm_compute; reflexivity).
  assert (taskQueue_ (pool (world_after scenario_two_tasks_stopped))
            = [InvokePackaged 0; InvokePackaged 1])
    as Hq by (vm_compute; reflexivity).
  assert (length [InvokePackaged 0; InvokePackaged 1] <= 2)%nat as Hfuel
    by (simpl; lia).
  assert (- 2 ^ 31 <= idleThreadSize_ (pool (world_after scenario_two_tasks_stopped))
            < 2 ^ 31) as Hidle by evaluate'.
  assert (~ takes_retire_branch EntryWait
              (pool (world_after scenario_two_tasks_stopped))) as Hno
    by (intros []).
  split; [exact Hstop|]. split; [exact Hq|]. split; [exact Hfuel|].
  split; [exact Hno|].
  destruct (proj1 (stopped_pool_worker_drains_queue EntryWait 0
                     [InvokePackaged 0; InvokePackaged 1] 2
                     (world_after scenario_two_tasks_stopped)
                     Hstop Hq two_tasks_stopped_runnable Hfuel Hidle) Hno)
    as (w' & Hrun & Hq' & _ & Hfr & _).
  exists w'. split; [exact Hrun|]. split; [exact Hq'|exact Hfr].
Defined.

(** The worker map of the cached pool of two workers. *)
Lemma cached_pair_workers k :
  is_Some (threadsMap_ (pool (world_after scenario_cached_pair)) !! k)
  <-> k ∈ cached_pair_wakes.*1.
Proof.
  unfold world_after.
  change (threadsMap_ (pool (default World_init (run scenario_cached_pair World_init))))
    with (<[1 := mkThread 1]> (<[0 := mkThread 0]> (∅ : gmap Z Thread))).
  simpl. rewrite !elem_of_cons. split.
  - intros [t Hk].
    destruct (decide (k = 0)) as [->|]; [by left|].
    destruct (decide (k = 1)) as [->|]; [right; by left|].
    by rewrite !lookup_insert_ne, lookup_empty in Hk by done.
  - intros [->|[->|Hk]].
    + by rewrite lookup_insert_ne, lookup_insert_eq by done.
    + by rewrite lookup_insert_eq.
    + by apply elem_of_nil in Hk.
Qed.

(** Neither worker retires: the first has been idle for longer than
    [maxThreadFreeTime_], but the map holds no more than [initThreadSize_]
    workers; the wait of the second did not time out. *)
Lemma cached_pair_stays :
  no_worker_retires (pool (world_after scenario_cached_pair)) cached_pair_wakes.
Proof.
  split; [|split; [intros []|exact I]].
  intros [_ Hsize]. vm_compute in Hsize. discriminate Hsize.
Qed.

(** Teardown of a cached pool of two idle workers, both inside
    [wait_for]. *)
Lemma teardown_returns_after_workers_left_witness :
  taskQueue_ (pool (world_after scenario_cached_pair)) = [] /\
  NoDup cached_pair_wakes.*1 /\
  no_worker_retires (pool (world_after scenario_cached_pair)) cached_pair_wakes /\
  exists w',
    teardown cached_pair_wakes (world_after scenario_cached_pair)
      = Some ((DtorWaiting, [WorkerReturn ExitPoolStopped; WorkerReturn ExitPoolStopped],
               DtorReturn), w') /\
    threadsMap_ (pool w') = ∅.
Proof.
  assert (taskQueue_ (pool (world_after scenario_cached_pair)) = [])
    as Hq by (vm_compute; reflexivity).
  assert (NoDup cached_pair_wakes.*1) as Hnd by decide_closed.
  split; [exact Hq|]. split; [exact Hnd|]. split; [exact cached_pair_stays|].
  destruct (teardown_returns_after_workers_left cached_pair_wakes
              (world_after scenario_cached_pair) Hq Hnd cached_pair_workers
              cached_pair_stays)
    as (pc1 & w' & Hrun & Hpc1 & Hempty & _).
  exists w'. split; [|exact Hempty].
  destruct pc1; [exact Hrun|].
  exfalso. assert (threadsMap_ (pool (world_after scenario_cached_pair)) = ∅) as Hm
    by (by apply Hpc1).
  assert (is_Some (threadsMap_ (pool (world_after scenario_cached_pair)) !! 0))
    as [t Ht] by (apply cached_pair_workers; decide_closed).
  by rewrite Hm, lookup_empty in Ht.
Defined.

(** Teardown of the cached pool of [scenario_idle_worker]: its one worker,
    inside [wait_for], is idle for the configured second when the wait
    times out. *)
Lemma teardown_not_notified_by_retiring_worker_witness :
  is_Some (threadsMap_ (pool (world_after scenario_idle_worker)) !! 0) /\
  delete 0 (threadsMap_ (pool (world_after scenario_idle_worker))) = ∅ /\
  takes_retire_branch (EntryWaitFor 0 timeout (1 * Chrono.ticks_per_second))
    (pool (world_after scenario_idle_worker)) /\
  exists w',
    teardown [(0, EntryWaitFor 0 timeout (1 * Chrono.ticks_per_second))]
        (world_after scenario_idle_worker)
      = Some ((DtorWaiting, [WorkerReturn ExitIdleTimeout], DtorWaiting), w') /\
    threadsMap_ (pool w') = ∅ /\
    isPoolRunning_ (pool w') = false.
Proof.
  assert (is_Some (threadsMap_ (pool (world_after scenario_idle_worker)) !! 0))
    as Hin by (exists (mkThread 0); vm_compute; reflexivity).
  assert (delete 0 (threadsMap_ (pool (world_after scenario_idle_worker))) = ∅)
    as Hlast by (vm_compute; reflexivity).
  assert (takes_retire_branch (EntryWaitFor 0 timeout (1 * Chrono.ticks_per_second))
            (pool (world_after scenario_idle_worker))) as Hyes by evaluate'.
  split; [exact Hin|]. split; [exact Hlast|]. split; [exact Hyes|].
  destruct (teardown_not_notified_by_retiring_worker 0 0
              (1 * Chrono.ticks_per_second) (world_after scenario_idle_worker)
              Hin Hlast Hyes)
    as (w' & Hrun & Hempty & Hstop & _).
  exists w'. split; [exact Hrun|]. split; [exact Hempty|exact Hstop].
Defined.


(** The first future of the README after the worker has counted itself
    idle again. *)
Lemma ready_future_is_stable_witness :
  future_state (Future 0%nat) (world_after scenario_readme) = Some (Value 3) /\
  Value 3 <> NotReady /\
  rtc (step 0) (world_after scenario_readme)
    (default World_init (exec 0 OpWorkerDone (world_after scenario_readme))) /\
  future_state (Future 0%nat)
    (default World_init (exec 0 OpWorkerDone (world_after scenario_readme)))
    = Some (Value 3).
Proof.
  assert (rtc (step 0) (world_after scenario_readme)
            (default World_init (exec 0 OpWorkerDone (world_after scenario_readme))))
    as Hs.
  { eapply rtc_l; [|apply rtc_refl]. exists OpWorkerDone. vm_compute. reflexivity. }
  assert (future_state (Future 0%nat) (world_after scenario_readme) = Some (Value 3))
    as Hv by (vm_compute; reflexivity).
  assert (Value 3 <> NotReady) as Hr by discriminate.
  split; [exact Hv|]. split; [exact Hr|]. split; [exact Hs|].
  exact (ready_future_is_stable 0 (Future 0%nat) (Value 3) _ _ Hv Hr Hs).
Defined.

(** A task is submitted to the started pool of two workers. *)
Lemma submission_steps_started :
  rtc (step_started 0) (world_after scenario_fixed_pool)
    (world_after scenario_one_task).
Proof.
  eapply rtc_l.
  { exists (OpSubmitPackage (fun _ => add1 1 2)).
    split; [vm_compute; reflexivity|]. simpl. tauto. }
  eapply rtc_l; [|apply rtc_refl].
  exists (OpSubmitLocked 0 (Future 0) false 2).
  split; [vm_compute; reflexivity|]. simpl. tauto.
Qed.

Lemma submission_steps_grown :
  rtc (step_grown 0) (world_after scenario_fixed_pool)
    (world_after scenario_one_task).
Proof.
  eapply rtc_l.
  { exists (OpSubmitPackage (fun _ => add1 1 2)).
    split; [vm_compute; reflexivity|]. simpl. tauto. }
  eapply rtc_l; [|apply rtc_refl].
  exists (OpSubmitLocked 0 (Future 0) false 2).
  split; [vm_compute; reflexivity|]. simpl. tauto.
Qed.

Lemma workers_never_exceed_max_witness :
  rtc (step_grown 0) (world_after scenario_fixed_pool)
    (world_after scenario_one_task) /\
  Z.of_nat (size (threadsMap_ (pool (world_after scenario_one_task))))
    <= Z.max (Z.of_nat (size (threadsMap_ (pool (world_after scenario_fixed_pool)))))
         (maxThreadSize_ (pool (world_after scenario_fixed_pool))).
Proof.
  split; [exact submission_steps_grown|].
  exact (proj2 (workers_never_exceed_max 0 _ _ submission_steps_grown)).
Defined.

Lemma workers_never_below_init_while_running_witness :
  rtc (step_started 0) (world_after scenario_fixed_pool)
    (world_after scenario_one_task) /\
  isPoolRunning_ (pool (world_after scenario_one_task)) = true /\
  initThreadSize_ (pool (world_after scenario_fixed_pool))
    <= Z.of_nat (size (threadsMap_ (pool (world_after scenario_fixed_pool)))) /\
  initThreadSize_ (pool (world_after scenario_one_task))
    <= Z.of_nat (size (threadsMap_ (pool (world_after scenario_one_task)))).
Proof.
  assert (isPoolRunning_ (pool (world_after scenario_one_task)) = true)
    as Hrun by (vm_compute; reflexivity).
  assert (initThreadSize_ (pool (world_after scenario_fixed_pool))
            <= Z.of_nat (size (threadsMap_ (pool (world_after scenario_fixed_pool)))))
    as Hfloor by evaluate'.
  split; [exact submission_steps_started|]. split; [exact Hrun|].
  split; [exact Hfloor|].
  exact (proj2 (workers_never_below_init_while_running 0 _ _
                  submission_steps_started Hrun Hfloor)).
Defined.

Lemma fixed_pool_never_grows_witness :
  rtc (step_started 0) (world_after scenario_fixed_pool)
    (world_after scenario_one_task) /\
  isPoolRunning_ (pool (world_after scenario_one_task)) = true /\
  poolMode_ (pool (world_after scenario_fixed_pool)) = MODE_FIXED /\
  threadsMap_ (pool (world_after scenario_one_task))
    ⊆ threadsMap_ (pool (world_after scenario_fixed_pool)).
Proof.
  assert (isPoolRunning_ (pool (world_after scenario_one_task)) = true)
    as Hrun by (vm_compute; reflexivity).
  assert (poolMode_ (pool (world_after scenario_fixed_pool)) = MODE_FIXED)
    as Hmode by (vm_compute; reflexivity).
  split; [exact submission_steps_started|]. split; [exact Hrun|].
  split; [exact Hmode|].
  exact (proj2 (fixed_pool_never_grows 0 _ _ submission_steps_started Hrun Hmode)).
Defined.

(** The README's configuration of a freshly constructed pool, and the same
    calls with [setMode] last. *)
Lemma configuration_needs_mode_first_witness :
  isPoolRunning_ (pool (World_init (RtType := Z))) = false /\
  poolMode_ (pool (World_init (RtType := Z))) = MODE_FIXED /\
  configure_mode_last 16 1 (World_init (RtType := Z))
    = Some (tt, mkWorld (set_poolMode_ MODE_CACHED ThreadPool_ctor) [] []).
Proof.
  split; [reflexivity|]. split; [reflexivity|].
  exact (proj2 (configuration_needs_mode_first 16 1 (World_init (RtType := Z))
                  eq_refl eq_refl)).
Defined.

(** A submission to the pool of [scenario_retire_race], whose idle counter
    is -1. *)
Lemma negative_idle_counter_stops_growth_witness :
  Z.of_nat (length (taskQueue_ (pool (world_after scenario_retire_race))))
    < taskQueueMaxSize_ (pool (world_after scenario_retire_race)) /\
  - 2 ^ 31 <= idleThreadSize_ (pool (world_after scenario_retire_race)) < 0 /\
  0 <= taskSize_ (pool (world_after scenario_retire_race)) < 2 ^ 31 - 1 /\
  exists w',
    submitTask_locked 0 2%nat (Future 2%nat) false 1
        (world_after scenario_retire_race)
      = Some (SubmitReturn (Future 2%nat), w') /\
    threadsMap_ (pool w') = threadsMap_ (pool (world_after scenario_retire_race)).
Proof.
  assert (Z.of_nat (length (taskQueue_ (pool (world_after scenario_retire_race))))
            < taskQueueMaxSize_ (pool (world_after scenario_retire_race)))
    as Hroom by (vm_compute; reflexivity).
  assert (- 2 ^ 31 <= idleThreadSize_ (pool (world_after scenario_retire_race)) < 0)
    as Hidle by evaluate'.
  assert (0 <= taskSize_ (pool (world_after scenario_retire_race)) < 2 ^ 31 - 1)
    as Hts by evaluate'.
  split; [exact Hroom|]. split; [exact Hidle|]. split; [exact Hts|].
  destruct (negative_idle_counter_stops_growth 0 2%nat (Future 2%nat) false 1
              (world_after scenario_retire_race) Hroom Hidle Hts)
    as (w' & Hsub & _ & Hmap & _).
  exists w'. split; [exact Hsub|exact Hmap].
Defined.
